(** * Leader election of the Raft simulation

    A shallow embedding of
    [high-level-design/05-advanced-concepts/05-consensus-raft/main.go]:
    the node record, the four handlers that run under the node's mutex
    ([startElection], [handleRequestVote], [receiveVote],
    [handleHeartbeat]), the heartbeat loop [sendHeartbeats], the peer
    lookup [getPeer], and the cluster of [main] with its goroutines and
    channels, followed by the properties of the election protocol. *)

From stdpp Require Import prelude.
From Stdlib Require Import ZArith Lia.

Local Open Scope Z_scope.

(** ** Go's [int]

    [int] is a 64-bit two's complement integer on the 64-bit targets.  The
    only arithmetic the program performs on a term is [rn.currentTerm++],
    which wraps from the largest value to the smallest one. *)

Definition MaxInt : Z := 9223372036854775807.
Definition MinInt : Z := -9223372036854775808.

Definition incr (x : Z) : Z :=
  if decide (x = MaxInt) then MinInt else x + 1.

(** ** Data model *)

(** [RaftState], an [iota] enumeration. *)
Inductive RaftState : Set := Follower | Candidate | Leader.

#[global] Instance RaftState_eq_dec : EqDecision RaftState.
Proof. solve_decision. Defined.

Record RequestVoteArgs : Set := {
  rv_Term : Z;
  rv_CandidateID : Z
}.

Record RequestVoteReply : Set := {
  rp_Term : Z;
  rp_VoteGranted : bool
}.

Record HeartbeatArgs : Set := {
  hb_Term : Z;
  hb_LeaderID : Z
}.

(** A [*time.Timer]: [armed] says that the runtime timer is pending,
    [fired] that a value is waiting in the channel [C], [duration] is the
    length in milliseconds of the last arming. *)
Record Timer : Set := {
  armed : bool;
  fired : bool;
  duration : Z
}.

Definition NewTimer (d : Z) : Timer :=
  {| armed := true; fired := false; duration := d |}.

(** [t.Reset(d)] re-arms the timer; a value already sitting in [C] stays
    there (the behaviour before Go 1.23; from 1.23 on the value is dropped,
    which only removes runs). *)
Definition Timer_Reset (d : Z) (t : Timer) : Timer :=
  {| armed := true; fired := fired t; duration := d |}.

(** The runtime delivers the expiry into [C], whose buffer holds one value. *)
Definition Timer_fire (t : Timer) : Timer :=
  {| armed := false; fired := true; duration := duration t |}.

(** [<-t.C] *)
Definition Timer_receive (t : Timer) : Timer :=
  {| armed := armed t; fired := false; duration := duration t |}.

(** [time.Duration(150+rand.Intn(150)) * time.Millisecond], in
    milliseconds, where [r] is the value returned by [rand.Intn(150)]. *)
Definition electionTimeout (r : Z) : Z := 150 + r.

(** A [*RaftNode] is the index of the node in the cluster's node table. *)
Definition addr := nat.
Bind Scope nat_scope with addr.

(** [RaftNode].  The mutex is not a field: a handler that holds it is one
    atomic function from node to node. *)
Record RaftNode : Set := {
  id : Z;
  currentTerm : Z;
  votedFor : Z;                       (* -1 means null *)
  state : RaftState;
  electionTimer : option Timer;       (* None is nil *)
  peers : list addr;
  voteReqChan : list RequestVoteArgs;   (* buffered, capacity 10 *)
  voteReplyChan : list RequestVoteReply;
  heartbeatChan : list HeartbeatArgs    (* buffered, capacity 10 *)
}.

Definition chanCap : nat := 10.

Definition set_currentTerm (t : Z) (rn : RaftNode) : RaftNode :=
  {| id := id rn; currentTerm := t; votedFor := votedFor rn;
     state := state rn; electionTimer := electionTimer rn;
     peers := peers rn; voteReqChan := voteReqChan rn;
     voteReplyChan := voteReplyChan rn; heartbeatChan := heartbeatChan rn |}.

Definition set_votedFor (v : Z) (rn : RaftNode) : RaftNode :=
  {| id := id rn; currentTerm := currentTerm rn; votedFor := v;
     state := state rn; electionTimer := electionTimer rn;
     peers := peers rn; voteReqChan := voteReqChan rn;
     voteReplyChan := voteReplyChan rn; heartbeatChan := heartbeatChan rn |}.

Definition set_state (s : RaftState) (rn : RaftNode) : RaftNode :=
  {| id := id rn; currentTerm := currentTerm rn; votedFor := votedFor rn;
     state := s; electionTimer := electionTimer rn;
     peers := peers rn; voteReqChan := voteReqChan rn;
     voteReplyChan := voteReplyChan rn; heartbeatChan := heartbeatChan rn |}.

Definition set_electionTimer (t : option Timer) (rn : RaftNode) : RaftNode :=
  {| id := id rn; currentTerm := currentTerm rn; votedFor := votedFor rn;
     state := state rn; electionTimer := t;
     peers := peers rn; voteReqChan := voteReqChan rn;
     voteReplyChan := voteReplyChan rn; heartbeatChan := heartbeatChan rn |}.

Definition set_peers (ps : list addr) (rn : RaftNode) : RaftNode :=
  {| id := id rn; currentTerm := currentTerm rn; votedFor := votedFor rn;
     state := state rn; electionTimer := electionTimer rn;
     peers := ps; voteReqChan := voteReqChan rn;
     voteReplyChan := voteReplyChan rn; heartbeatChan := heartbeatChan rn |}.

Definition set_voteReqChan (q : list RequestVoteArgs) (rn : RaftNode) : RaftNode :=
  {| id := id rn; currentTerm := currentTerm rn; votedFor := votedFor rn;
     state := state rn; electionTimer := electionTimer rn;
     peers := peers rn; voteReqChan := q;
     voteReplyChan := voteReplyChan rn; heartbeatChan := heartbeatChan rn |}.

Definition set_heartbeatChan (q : list HeartbeatArgs) (rn : RaftNode) : RaftNode :=
  {| id := id rn; currentTerm := currentTerm rn; votedFor := votedFor rn;
     state := state rn; electionTimer := electionTimer rn;
     peers := peers rn; voteReqChan := voteReqChan rn;
     voteReplyChan := voteReplyChan rn; heartbeatChan := q |}.

(** [NewRaftNode]: a Follower in term 0 that has voted for nobody, with no
    timer and no peers yet. *)
Definition NewRaftNode (i : Z) : RaftNode :=
  {| id := i; currentTerm := 0; votedFor := -1; state := Follower;
     electionTimer := None; peers := [];
     voteReqChan := []; voteReplyChan := []; heartbeatChan := [] |}.

(** ** The handlers, each the body of one critical section *)

(** [resetElectionTimer]: the old timer, if any, is stopped and replaced
    by a new one, armed, whose channel is empty. *)
Definition resetElectionTimer (r : Z) (rn : RaftNode) : RaftNode :=
  set_electionTimer (Some (NewTimer (electionTimeout r))) rn.

(** [startElection], up to the unlock.  The result carries the arguments
    of the RequestVote that the loop after the unlock sends to the peers,
    or [None] when the node is Leader and returns at once. *)
Definition startElection (rn : RaftNode) : RaftNode * option RequestVoteArgs :=
  match state rn with
  | Leader => (rn, None)
  | _ =>
      let rn := set_state Candidate rn in
      let rn := set_currentTerm (incr (currentTerm rn)) rn in
      let rn := set_votedFor (id rn) rn in
      let term := currentTerm rn in
      (rn, Some {| rv_Term := term; rv_CandidateID := id rn |})
  end.

(** [rn.electionTimer.Reset(...)] guarded by the nil test. *)
Definition resetIfSet (r : Z) (rn : RaftNode) : RaftNode :=
  match electionTimer rn with
  | Some t => set_electionTimer (Some (Timer_Reset (electionTimeout r) t)) rn
  | None => rn
  end.

(** [handleRequestVote].  The reply is built as in the source; it is never
    sent, but its [VoteGranted] decides whether the goroutine that tells
    the candidate is started. *)
Definition handleRequestVote (rn : RaftNode) (args : RequestVoteArgs) (r : Z)
  : RaftNode * RequestVoteReply :=
  let reply := {| rp_Term := currentTerm rn; rp_VoteGranted := false |} in
  let rn :=
    if decide (rv_Term args > currentTerm rn) then
      set_votedFor (-1) (set_state Follower (set_currentTerm (rv_Term args) rn))
    else rn in
  if decide (rv_Term args < currentTerm rn) then (rn, reply)
  else if decide (votedFor rn = -1 \/ votedFor rn = rv_CandidateID args) then
    let rn := set_votedFor (rv_CandidateID args) rn in
    let reply := {| rp_Term := rp_Term reply; rp_VoteGranted := true |} in
    (resetIfSet r rn, reply)
  else (rn, reply).

(** [receiveVote]; the boolean says whether [go rn.sendHeartbeats()] ran. *)
Definition receiveVote (rn : RaftNode) : RaftNode * bool :=
  if decide (state rn <> Candidate) then (rn, false)
  else (set_state Leader rn, true).

(** [handleHeartbeat] *)
Definition handleHeartbeat (rn : RaftNode) (args : HeartbeatArgs) (r : Z)
  : RaftNode :=
  if decide (hb_Term args >= currentTerm rn) then
    resetIfSet r (set_state Follower (set_currentTerm (hb_Term args) rn))
  else rn.

(** The head of one iteration of [sendHeartbeats]: under the lock, return
    when the node is not Leader, otherwise read the term to send. *)
Definition heartbeatTerm (rn : RaftNode) : option Z :=
  if decide (state rn <> Leader) then None else Some (currentTerm rn).

(** ** Peers *)

(** The loop of [getPeer] over the peer slice: the first pointer whose node
    has the wanted id; [None] is the final [return nil].  A peer pointer
    always refers to a node of the table, so the lookup in [h] succeeds. *)
Fixpoint findPeer (h : list RaftNode) (ps : list addr) (i : Z) : option addr :=
  match ps with
  | [] => None
  | p :: ps' =>
      match h !! p with
      | Some n => if decide (id n = i) then Some p else findPeer h ps' i
      | None => findPeer h ps' i
      end
  end.

Definition getPeer (h : list RaftNode) (rn : RaftNode) (i : Z) : option addr :=
  findPeer h (peers rn) i.

(** The peers that pass [if peer.id == rn.id { continue }], in order. *)
Fixpoint others (h : list RaftNode) (self : Z) (ps : list addr) : list addr :=
  match ps with
  | [] => []
  | p :: ps' =>
      match h !! p with
      | Some n => if decide (id n = self) then others h self ps'
                  else p :: others h self ps'
      | None => others h self ps'
      end
  end.

(** ** The heartbeat loop over what it observes

    [sendHeartbeats] reads the node only at the head of each iteration.
    Given the node as it is seen at the successive lock acquisitions, the
    loop produces one batch of sends per iteration until the first
    observation that is not Leader, where it returns. *)
Definition heartbeatBatch (h : list RaftNode) (rn : RaftNode) (term : Z)
  : list (addr * HeartbeatArgs) :=
  (fun p => (p, {| hb_Term := term; hb_LeaderID := id rn |}))
    <$> others h (id rn) (peers rn).

Fixpoint sendHeartbeats (h : list RaftNode) (obs : list RaftNode)
  : list (list (addr * HeartbeatArgs)) :=
  match obs with
  | [] => []
  | rn :: obs' =>
      match heartbeatTerm rn with
      | None => []
      | Some term => heartbeatBatch h rn term :: sendHeartbeats h obs'
      end
  end.

(** ** The cluster: node table and goroutines *)

(** Where a [sendHeartbeats] goroutine stands: at the head of the loop, or
    inside the [range] with the term it read and the peers still to visit
    (once these are exhausted it sleeps and goes back to the head). *)
Inductive HBpc : Set :=
| HBCheck
| HBSend (term : Z) (rest : list addr).

(** The goroutines started with [go] that have not finished. *)
Inductive Goroutine : Set :=
| GoSendVoteReq (p : addr) (args : RequestVoteArgs)
    (* p.voteReqChan <- RequestVoteArgs{...}, from startElection *)
| GoReceiveVote (voter : addr) (args : RequestVoteArgs)
    (* candidate := rn.getPeer(args.CandidateID); candidate.receiveVote() *)
| GoSendHeartbeats (rn : addr) (pc : HBpc).
    (* rn.sendHeartbeats() *)

Record Cluster : Set := {
  nodes : list RaftNode;
  spawned : list Goroutine
}.

Definition set_node (a : addr) (rn : RaftNode) (c : Cluster) : Cluster :=
  {| nodes := <[a := rn]> (nodes c); spawned := spawned c |}.

Definition spawn (gs : list Goroutine) (c : Cluster) : Cluster :=
  {| nodes := nodes c; spawned := spawned c ++ gs |}.

Definition finish (k : nat) (c : Cluster) : Cluster :=
  {| nodes := nodes c; spawned := delete k (spawned c) |}.

Definition resume (k : nat) (g : Goroutine) (c : Cluster) : Cluster :=
  {| nodes := nodes c; spawned := <[k := g]> (spawned c) |}.

(** What the scheduler can choose next.  The first five concern the main
    loop of node [a] (the goroutine of [Start]); [r] is the value that
    [rand.Intn(150)] returns should the handler draw one.  The tail of
    [main], which after two seconds demotes the elected leader by hand and
    stops its timer, is not among the events. *)
Inductive Event : Set :=
| EvStart (a : addr) (r : Z)       (* the loop begins: resetElectionTimer *)
| EvTimerFire (a : addr)           (* the election timer of a expires *)
| EvTimeout (a : addr)             (* case <-rn.electionTimer.C *)
| EvVoteReq (a : addr) (r : Z)     (* case args := <-rn.voteReqChan *)
| EvHeartbeat (a : addr) (r : Z)   (* case args := <-rn.heartbeatChan *)
| EvGo (k : nat).                  (* the k-th spawned goroutine advances *)

(** The result of an event: the next cluster, [Blocked] when the event
    cannot happen in this cluster (nothing to receive, channel full, no
    such goroutine), [Panic] on a nil pointer dereference. *)
Inductive Outcome : Set :=
| Next (c : Cluster)
| Blocked
| Panic.

Definition voteRequests (h : list RaftNode) (rn : RaftNode)
    (args : RequestVoteArgs) : list Goroutine :=
  (fun p => GoSendVoteReq p args) <$> others h (id rn) (peers rn).

(** One step of the goroutine [g], the [k]-th of [spawned c]. *)
Definition runGoroutine (k : nat) (g : Goroutine) (c : Cluster) : Outcome :=
  match g with
  | GoSendVoteReq p args =>
      match nodes c !! p with
      | Some pn =>
          if decide (length (voteReqChan pn) < chanCap)%nat then
            Next (finish k
                    (set_node p (set_voteReqChan (voteReqChan pn ++ [args]) pn) c))
          else Blocked
      | None => Panic
      end
  | GoReceiveVote v args =>
      match nodes c !! v with
      | Some vn =>
          match getPeer (nodes c) vn (rv_CandidateID args) with
          | Some ca =>
              match nodes c !! ca with
              | Some cn =>
                  let '(cn', started) := receiveVote cn in
                  let c' := finish k (set_node ca cn' c) in
                  Next (if started then spawn [GoSendHeartbeats ca HBCheck] c'
                        else c')
              | None => Panic
              end
          | None => Panic
          end
      | None => Panic
      end
  | GoSendHeartbeats a HBCheck =>
      match nodes c !! a with
      | Some rn =>
          match heartbeatTerm rn with
          | None => Next (finish k c)
          | Some term =>
              Next (resume k (GoSendHeartbeats a (HBSend term (peers rn))) c)
          end
      | None => Panic
      end
  | GoSendHeartbeats a (HBSend term []) =>
      (* time.Sleep(50 * time.Millisecond) *)
      Next (resume k (GoSendHeartbeats a HBCheck) c)
  | GoSendHeartbeats a (HBSend term (p :: rest)) =>
      match nodes c !! a, nodes c !! p with
      | Some rn, Some pn =>
          if decide (id pn = id rn) then
            Next (resume k (GoSendHeartbeats a (HBSend term rest)) c)
          else if decide (length (heartbeatChan pn) < chanCap)%nat then
            let hb := {| hb_Term := term; hb_LeaderID := id rn |} in
            Next (resume k (GoSendHeartbeats a (HBSend term rest))
                    (set_node p
                       (set_heartbeatChan (heartbeatChan pn ++ [hb]) pn) c))
          else Blocked
      | _, _ => Panic
      end
  end.

Definition exec (ev : Event) (c : Cluster) : Outcome :=
  match ev with
  | EvStart a r =>
      match nodes c !! a with
      | Some rn =>
          match electionTimer rn with
          | None => Next (set_node a (resetElectionTimer r rn) c)
          | Some _ => Blocked
          end
      | None => Blocked
      end
  | EvTimerFire a =>
      match nodes c !! a with
      | Some rn =>
          match electionTimer rn with
          | Some t =>
              if armed t
              then Next (set_node a (set_electionTimer (Some (Timer_fire t)) rn) c)
              else Blocked
          | None => Blocked
          end
      | None => Blocked
      end
  | EvTimeout a =>
      match nodes c !! a with
      | Some rn =>
          match electionTimer rn with
          | Some t =>
              if fired t then
                let rn := set_electionTimer (Some (Timer_receive t)) rn in
                let '(rn, req) := startElection rn in
                let c := set_node a rn c in
                match req with
                | Some args => Next (spawn (voteRequests (nodes c) rn args) c)
                | None => Next c
                end
              else Blocked
          | None => Blocked
          end
      | None => Blocked
      end
  | EvVoteReq a r =>
      match nodes c !! a with
      | Some rn =>
          match electionTimer rn, voteReqChan rn with
          | Some _, args :: q =>
              let rn := set_voteReqChan q rn in
              let '(rn, reply) := handleRequestVote rn args r in
              let c := set_node a rn c in
              Next (if rp_VoteGranted reply
                    then spawn [GoReceiveVote a args] c else c)
          | _, _ => Blocked
          end
      | None => Blocked
      end
  | EvHeartbeat a r =>
      match nodes c !! a with
      | Some rn =>
          match electionTimer rn, heartbeatChan rn with
          | Some _, args :: q =>
              let rn := set_heartbeatChan q rn in
              Next (set_node a (handleHeartbeat rn args r) c)
          | _, _ => Blocked
          end
      | None => Blocked
      end
  | EvGo k =>
      match spawned c !! k with
      | Some g => runGoroutine k g c
      | None => Blocked
      end
  end.

Fixpoint run (evs : list Event) (c : Cluster) : Outcome :=
  match evs with
  | [] => Next c
  | ev :: evs' =>
      match exec ev c with
      | Next c' => run evs' c'
      | o => o
      end
  end.

(** The wiring of [main], for any list of ids: one node per id, and every
    node's [peers] is the whole slice of nodes. *)
Definition mesh (ids : list Z) : Cluster :=
  {| nodes := (fun i => set_peers (seq 0 (length ids)) (NewRaftNode i)) <$> ids;
     spawned := [] |}.

(** [main] creates the nodes 1, 2 and 3. *)
Definition main_cluster : Cluster := mesh [1; 2; 3].

(** The cluster that a run ends in (the start when the run does not go
    through). *)
Definition after (evs : list Event) (c : Cluster) : Cluster :=
  match run evs c with
  | Next c' => c'
  | _ => c
  end.

(** The node at [a], for clusters that are known to have one there. *)
Definition node_at (c : Cluster) (a : addr) : RaftNode :=
  default (NewRaftNode 0) (nodes c !! a).

(** ** The four event handlers of a node, as one function *)

Inductive Handler : Set :=
| HStartElection
| HHandleRequestVote (args : RequestVoteArgs) (r : Z)
| HReceiveVote
| HHandleHeartbeat (args : HeartbeatArgs) (r : Z).

Definition handle (h : Handler) (rn : RaftNode) : RaftNode :=
  match h with
  | HStartElection => (startElection rn).1
  | HHandleRequestVote args r => (handleRequestVote rn args r).1
  | HReceiveVote => (receiveVote rn).1
  | HHandleHeartbeat args r => handleHeartbeat rn args r
  end.

(** ** Votes and quorum *)

(** Quorum as the specification words it, [floor(N/2) + 1]; the program has
    no such function. *)
Definition quorum (N : nat) : nat := (N / 2 + 1)%nat.

(** The nodes that, in the term of [cand], have their vote on [cand]
    (the candidate itself included, since it votes for itself). *)
Definition votesFor (c : Cluster) (cand : RaftNode) : nat :=
  length (filter (fun n => currentTerm n = currentTerm cand /\
                           votedFor n = id cand) (nodes c)).

(** ** Statements of the specification that are examined below *)

(** No two distinct nodes are Leader with the same term. *)
Definition single_leader (c : Cluster) : Prop :=
  forall (a b : addr) (na nb : RaftNode),
    nodes c !! a = Some na -> nodes c !! b = Some nb ->
    state na = Leader -> state nb = Leader ->
    currentTerm na = currentTerm nb -> a = b.

(** A Leader holds a quorum of the votes of its term. *)
Definition leader_has_quorum (c : Cluster) : Prop :=
  forall (a : addr) (rn : RaftNode),
    nodes c !! a = Some rn -> state rn = Leader ->
    (quorum (length (nodes c)) <= votesFor c rn)%nat.

(** A handler never lowers the term. *)
Definition term_monotone (h : Handler) (rn : RaftNode) : Prop :=
  currentTerm rn <= currentTerm (handle h rn).

(** A handler that raises the term leaves [votedFor] either null or on a
    vote recorded by this very handler in the new term: the node's own id
    for a candidacy, the requesting candidate for a grant. *)
Definition newVote (h : Handler) (rn : RaftNode) : option Z :=
  match h with
  | HStartElection => Some (id rn)
  | HHandleRequestVote args _ => Some (rv_CandidateID args)
  | _ => None
  end.

Definition term_advance_resets_vote (h : Handler) (rn : RaftNode) : Prop :=
  currentTerm rn < currentTerm (handle h rn) ->
  votedFor (handle h rn) = -1 \/ Some (votedFor (handle h rn)) = newVote h rn.

(** The [k]-th goroutine of [c] is a vote grant; when it runs, the nodes
    change only if the candidate is still Candidate in the term of the
    granted request. *)
Definition stale_grant_discarded (c : Cluster) (k : nat) : Prop :=
  forall (v ca : addr) (args : RequestVoteArgs) (vn cn : RaftNode) (c' : Cluster),
    spawned c !! k = Some (GoReceiveVote v args) ->
    nodes c !! v = Some vn ->
    getPeer (nodes c) vn (rv_CandidateID args) = Some ca ->
    nodes c !! ca = Some cn ->
    exec (EvGo k) c = Next c' ->
    ~ (state cn = Candidate /\ currentTerm cn = rv_Term args) ->
    nodes c' = nodes c.

(** Processing the election timeout on a node that is not Leader leaves
    its election timer armed. *)
Definition timeout_rearms (c : Cluster) (a : addr) : Prop :=
  forall (rn rn' : RaftNode) (c' : Cluster),
    nodes c !! a = Some rn -> state rn <> Leader ->
    exec (EvTimeout a) c = Next c' ->
    nodes c' !! a = Some rn' ->
    exists t, electionTimer rn' = Some t /\ armed t = true.

(** A Leader that handles a Heartbeat of its own term stays Leader in that
    term. *)
Definition leader_keeps_equal_term (rn : RaftNode) (args : HeartbeatArgs)
    (r : Z) : Prop :=
  state rn = Leader -> hb_Term args = currentTerm rn ->
  state (handleHeartbeat rn args r) = Leader /\
  currentTerm (handleHeartbeat rn args r) = currentTerm rn.

(** When a handler takes a Leader to Follower: a RequestVote of a strictly
    higher term, or a Heartbeat of a term at least the node's own. *)
Definition demotes (h : Handler) (rn : RaftNode) : Prop :=
  match h with
  | HHandleRequestVote args _ => rv_Term args > currentTerm rn
  | HHandleHeartbeat args _ => hb_Term args >= currentTerm rn
  | _ => False
  end.

(** ** Runs used as examples *)

(** Three nodes: node 1 stands in term 1 and node 3 grants; the grant is
    delayed.  Node 3 stands in term 2, node 1 grants it and, its timer
    re-armed by the grant, stands again in term 3. *)
Definition run_stale_candidate : list Event :=
  [EvStart 0 0; EvStart 1 0; EvStart 2 0;
   EvTimerFire 0; EvTimeout 0;
   EvGo 1; EvVoteReq 2 0;
   EvTimerFire 2; EvTimeout 2;
   EvGo 2; EvVoteReq 0 0;
   EvTimerFire 0; EvTimeout 0].

(** ... node 2 grants node 3 for term 2 as well, stands in term 3 and is
    granted by node 3; the grant of term 3 reaches node 2, and the delayed
    grant of term 1 reaches node 1. *)
Definition run_two_leaders : list Event :=
  run_stale_candidate ++
  [EvGo 2; EvVoteReq 1 0;
   EvTimerFire 1; EvTimeout 1;
   EvGo 7; EvVoteReq 2 0;
   EvGo 7; EvGo 1].

(** ... and the broadcaster of node 2 sends its first heartbeat, to node 1 *)
Definition run_leader_heartbeat : list Event :=
  run_two_leaders ++ [EvGo 6; EvGo 6].

(** Three nodes, the election that [main] waits for: node 1 stands in
    term 1, node 3 grants and the grant arrives. *)
Definition run_first_election : list Event :=
  [EvStart 0 0; EvStart 2 0;
   EvTimerFire 0; EvTimeout 0;
   EvGo 1; EvVoteReq 2 0; EvGo 1].

(** Four nodes, every grant delivered in its term: nodes 1 and 2 stand in
    term 1, node 3 grants node 1 and node 4 grants node 2. *)
Definition run_four_nodes : list Event :=
  [EvStart 0 0; EvStart 1 0; EvStart 2 0; EvStart 3 0;
   EvTimerFire 0; EvTimeout 0; EvTimerFire 1; EvTimeout 1;
   EvGo 1; EvVoteReq 2 0; EvGo 4; EvVoteReq 3 0; EvGo 4; EvGo 4].

(** Five nodes: node 1 stands, node 2 grants, the grant arrives. *)
Definition run_five_nodes : list Event :=
  [EvStart 0 0; EvStart 1 0;
   EvTimerFire 0; EvTimeout 0;
   EvGo 0; EvVoteReq 1 0; EvGo 3].

(** Three nodes: node 1 starts and its election timer expires. *)
Definition run_timer_expired : list Event :=
  [EvStart 0 0; EvTimerFire 0].

(** One node: it starts, its timer expires and it stands. *)
Definition run_single_node : list Event :=
  [EvStart 0 0; EvTimerFire 0; EvTimeout 0].

(** Three nodes: nodes 2 and 3 grant node 1 in term 1; node 2 stands in
    term 2, node 1 grants it, node 2 becomes Leader and its broadcaster
    reaches node 3, which has not yet seen term 2. *)
Definition run_heartbeat_new_term : list Event :=
  [EvStart 0 0; EvStart 1 0; EvStart 2 0;
   EvTimerFire 0; EvTimeout 0;
   EvGo 0; EvGo 0; EvVoteReq 1 0; EvVoteReq 2 0;
   EvTimerFire 1; EvTimeout 1;
   EvGo 2; EvVoteReq 0 0;
   EvGo 3;
   EvGo 3; EvGo 3; EvGo 3; EvGo 3].

(** ** Runs without stale grants and without overflow *)

(** The candidate that the [k]-th goroutine, a vote grant, is about to
    tell, with the granted request. *)
Definition grantTarget (c : Cluster) (k : nat)
  : option (RaftNode * RequestVoteArgs) :=
  match spawned c !! k with
  | Some (GoReceiveVote v args) =>
      match nodes c !! v with
      | Some vn =>
          match getPeer (nodes c) vn (rv_CandidateID args) with
          | Some ca =>
              match nodes c !! ca with
              | Some cn => Some (cn, args)
              | None => None
              end
          | None => None
          end
      | None => None
      end
  | _ => None
  end.

(** An event is admissible when it neither starts an election at the
    largest term nor delivers a grant to a Candidate that has left the
    term of the granted request. *)
Definition admissible (c : Cluster) (ev : Event) : bool :=
  match ev with
  | EvTimeout a =>
      match nodes c !! a with
      | Some rn => bool_decide (state rn = Leader \/ currentTerm rn < MaxInt)
      | None => true
      end
  | EvGo k =>
      match grantTarget c k with
      | Some (cn, args) =>
          bool_decide (state cn = Candidate -> currentTerm cn = rv_Term args)
      | None => true
      end
  | _ => true
  end.

Fixpoint run_admissible (evs : list Event) (c : Cluster) : Outcome :=
  match evs with
  | [] => Next c
  | ev :: evs' =>
      if admissible c ev then
        match exec ev c with
        | Next c' => run_admissible evs' c'
        | o => o
        end
      else Blocked
  end.

(** ** The invariant of admissible runs in a cluster of at most three *)

(** The voter [vn] cannot grant a request of term [t] to anyone but
    [cand]: it has passed [t], or it is in [t] with its vote on [cand]. *)
Definition committed (vn : RaftNode) (t : Z) (cand : Z) : Prop :=
  currentTerm vn > t \/ (currentTerm vn = t /\ votedFor vn = cand).

(** A RequestVote on its way to [p]: held by a sender goroutine, or
    buffered in the channel of [p]. *)
Definition inflightVoteReq (c : Cluster) (p : addr) (args : RequestVoteArgs)
  : Prop :=
  GoSendVoteReq p args ∈ spawned c \/
  exists pn, nodes c !! p = Some pn /\ args ∈ voteReqChan pn.

(** The node at [ca] is the candidate that issued [args]. *)
Definition issuedBy (c : Cluster) (args : RequestVoteArgs) (ca : addr) : Prop :=
  exists cn, nodes c !! ca = Some cn /\ id cn = rv_CandidateID args /\
             rv_Term args <= currentTerm cn.

(** The node at [a] has won its term or is about to: it is Leader, or it
    is Candidate and a grant for its term is on its way. *)
Definition winning (c : Cluster) (a : addr) (t : Z) : Prop :=
  exists rn, nodes c !! a = Some rn /\ currentTerm rn = t /\
    (state rn = Leader \/
     (state rn = Candidate /\
      exists v, GoReceiveVote v {| rv_Term := t; rv_CandidateID := id rn |}
                  ∈ spawned c)).

Record election_inv (c : Cluster) : Prop := {
  inv_ids : forall a b na nb,
    nodes c !! a = Some na -> nodes c !! b = Some nb ->
    id na = id nb -> a = b;
  inv_ids_valid : forall a rn, nodes c !! a = Some rn -> id rn <> -1;
  inv_small : (length (nodes c) <= 3)%nat;
  inv_self_vote : forall a rn,
    nodes c !! a = Some rn -> state rn <> Follower -> votedFor rn = id rn;
  inv_requests : forall p args,
    inflightVoteReq c p args -> exists ca, issuedBy c args ca /\ ca <> p;
  inv_grants : forall v args,
    GoReceiveVote v args ∈ spawned c ->
    exists ca vn, issuedBy c args ca /\ ca <> v /\ nodes c !! v = Some vn /\
                  committed vn (rv_Term args) (rv_CandidateID args);
  inv_leader : forall a rn,
    nodes c !! a = Some rn -> state rn = Leader ->
    exists v vn, v <> a /\ nodes c !! v = Some vn /\
                 committed vn (currentTerm rn) (id rn);
  inv_winning : forall a b t, winning c a t -> winning c b t -> a = b
}.

(** How the fields that the mutex protects may move in one step: the
    identity and the peers stay, the term does not go down, and within a
    term a vote once cast stays. *)
Definition evolves (rn rn' : RaftNode) : Prop :=
  id rn' = id rn /\ peers rn' = peers rn /\
  currentTerm rn <= currentTerm rn' /\
  (currentTerm rn' = currentTerm rn ->
   votedFor rn = -1 \/ votedFor rn' = votedFor rn).

(** ** The driver's crash of the leader *)

(** [t.Stop()] *)
Definition Timer_Stop (t : Timer) : Timer :=
  {| armed := false; fired := fired t; duration := duration t |}.

(** The scan of [main] for the leader: the nodes are locked and read one
    after the other, and [leader] is overwritten at each Leader met.
    [obs] holds each node as it is seen under its lock, [i] is the index
    of the head of [obs]. *)
Fixpoint scanLeader_from (i : nat) (obs : list RaftNode)
    (leader : option addr) : option addr :=
  match obs with
  | [] => leader
  | n :: obs' =>
      scanLeader_from (S i) obs'
        (if decide (state n = Leader) then Some i else leader)
  end.

Definition scanLeader (obs : list RaftNode) : option addr :=
  scanLeader_from 0 obs None.

(** The critical section of [main] on the leader it found: demote, then
    stop the election timer; [None] is the nil dereference of a timer that
    was never set. *)
Definition crash (rn : RaftNode) : option RaftNode :=
  let rn := set_state Follower rn in
  match electionTimer rn with
  | Some t => Some (set_electionTimer (Some (Timer_Stop t)) rn)
  | None => None
  end.

(** ** What a run keeps *)

(** The fields of a node that the election is about. *)
Definition core (rn : RaftNode) : Z * Z * Z * RaftState :=
  (id rn, currentTerm rn, votedFor rn, state rn).

(** The value of [rand.Intn(150)] that an event carries. *)
Definition drawOf (ev : Event) : option Z :=
  match ev with
  | EvStart _ r | EvVoteReq _ r | EvHeartbeat _ r => Some r
  | _ => None
  end.

(** [rand.Intn(150)] returns a value in [0, 150). *)
Definition drawInRange (ev : Event) : Prop :=
  forall r, drawOf ev = Some r -> 0 <= r < 150.

(** Every election timer that is set runs for 150 to 299 milliseconds. *)
Definition timersInRange (c : Cluster) : Prop :=
  forall a rn t, nodes c !! a = Some rn -> electionTimer rn = Some t ->
    150 <= duration t < 300.

(** Every node has an id other than -1, and a node that is Candidate or
    Leader has its vote on itself. *)
Definition selfVoted (c : Cluster) : Prop :=
  forall a rn, nodes c !! a = Some rn ->
    id rn <> -1 /\ (state rn <> Follower -> votedFor rn = id rn).

(** The goroutines that can exist in a cluster whose nodes carry [ids]:
    a RequestVote names a node of the cluster as candidate and goes to a
    node with another id, a grant names a node of the cluster, and all
    pointers held are nodes of the cluster. *)
Definition goodGoroutine (ids : list Z) (g : Goroutine) : Prop :=
  match g with
  | GoSendVoteReq p args =>
      rv_CandidateID args ∈ ids /\
      exists i, ids !! p = Some i /\ rv_CandidateID args <> i
  | GoReceiveVote v args =>
      rv_CandidateID args ∈ ids /\ (v < length ids)%nat
  | GoSendHeartbeats a HBCheck => (a < length ids)%nat
  | GoSendHeartbeats a (HBSend _ rest) =>
      (a < length ids)%nat /\ forall p, p ∈ rest -> (p < length ids)%nat
  end.

(** The cluster is wired as [main] wires it, over the ids [ids]. *)
Record wired (ids : list Z) (c : Cluster) : Prop := {
  wired_ids : id <$> nodes c = ids;
  wired_peers : forall a rn,
    nodes c !! a = Some rn -> peers rn = seq 0 (length ids);
  wired_chan : forall a rn args,
    nodes c !! a = Some rn -> args ∈ voteReqChan rn ->
    rv_CandidateID args ∈ ids /\ rv_CandidateID args <> id rn;
  wired_spawned : forall g, g ∈ spawned c -> goodGoroutine ids g
}.

(** Nothing is in flight and no election timer will expire: every loop
    has started, every timer has expired and its expiry has been taken,
    the channels are empty and no goroutine is left. *)
Definition quiescent (c : Cluster) : Prop :=
  spawned c = [] /\
  forall a rn, nodes c !! a = Some rn ->
    voteReqChan rn = [] /\ heartbeatChan rn = [] /\
    exists t, electionTimer rn = Some t /\ armed t = false /\ fired t = false.

(** The heartbeat [hb] enters the channel of the node at [p]. *)
Definition deliver (ns : list RaftNode) (m : addr * HeartbeatArgs)
  : list RaftNode :=
  match ns !! m.1 with
  | Some pn => <[m.1 := set_heartbeatChan (heartbeatChan pn ++ [m.2]) pn]> ns
  | None => ns
  end.

(** Three nodes, a split vote: all three stand in term 1 before any
    RequestVote is handled, and each refuses the two requests it gets. *)
Definition run_split_vote : list Event :=
  [EvStart 0 0; EvStart 1 0; EvStart 2 0;
   EvTimerFire 0; EvTimeout 0; EvTimerFire 1; EvTimeout 1;
   EvTimerFire 2; EvTimeout 2;
   EvGo 0; EvGo 0; EvGo 0; EvGo 0; EvGo 0; EvGo 0;
   EvVoteReq 0 0; EvVoteReq 0 0; EvVoteReq 1 0; EvVoteReq 1 0;
   EvVoteReq 2 0; EvVoteReq 2 0].

(** Three nodes: node 1 stands in term 1 and its RequestVote waits in the
    channel of node 2. *)
Definition run_request_pending : list Event :=
  [EvStart 0 0; EvTimerFire 0; EvTimeout 0; EvGo 0].

(** The number of election timeouts that a run processes. *)
Fixpoint timeouts (evs : list Event) : Z :=
  match evs with
  | [] => 0
  | EvTimeout _ :: evs' => 1 + timeouts evs'
  | _ :: evs' => timeouts evs'
  end.

(** The term that a goroutine carries, if any. *)
Definition termOf (g : Goroutine) : option Z :=
  match g with
  | GoSendVoteReq _ args | GoReceiveVote _ args => Some (rv_Term args)
  | GoSendHeartbeats _ (HBSend term _) => Some term
  | GoSendHeartbeats _ HBCheck => None
  end.

(** Every term in the cluster, of a node or of a message on its way, lies
    between 0 and [n]. *)
Record termsWithin (n : Z) (c : Cluster) : Prop := {
  tw_node : forall a rn, nodes c !! a = Some rn -> 0 <= currentTerm rn <= n;
  tw_req : forall a rn m,
    nodes c !! a = Some rn -> m ∈ voteReqChan rn -> 0 <= rv_Term m <= n;
  tw_hb : forall a rn m,
    nodes c !! a = Some rn -> m ∈ heartbeatChan rn -> 0 <= hb_Term m <= n;
  tw_go : forall g t, g ∈ spawned c -> termOf g = Some t -> 0 <= t <= n
}.

(** Every vote is on nobody or on one of [ids]. *)
Definition votesIn (ids : list Z) (c : Cluster) : Prop :=
  forall a rn, nodes c !! a = Some rn -> votedFor rn = -1 \/ votedFor rn ∈ ids.

(** Every Leader has a [sendHeartbeats] goroutine. *)
Definition leadersBroadcast (c : Cluster) : Prop :=
  forall a rn, nodes c !! a = Some rn -> state rn = Leader ->
    exists pc, GoSendHeartbeats a pc ∈ spawned c.

(** * Properties *)

(** ** Peers *)

Lemma others_spec (h : list RaftNode) (self : Z) (ps : list addr) (p : addr) :
  p ∈ others h self ps <-> p ∈ ps /\ exists n, h !! p = Some n /\ id n <> self.
Proof.
  induction ps as [|q ps IH]; simpl.
  - split; [intros H | intros [H _]]; by apply elem_of_nil in H.
  - destruct (h !! q) as [n|] eqn:Hq.
    + destruct (decide (id n = self)) as [He|Hne].
      * rewrite IH, elem_of_cons. split.
        -- intros [Hin Hn]. auto.
        -- intros [[->|Hin] (m & Hm & Hid)]; [congruence | eauto].
      * rewrite !elem_of_cons, IH. split.
        -- intros [->|[Hin Hn]]; eauto.
        -- intros [[->|Hin] Hn]; auto.
    + rewrite IH, elem_of_cons. split.
      * intros [Hin Hn]. auto.
      * intros [[->|Hin] (m & Hm & Hid)]; [congruence | eauto].
Qed.

Lemma findPeer_Some (h : list RaftNode) (ps : list addr) (i : Z) (p : addr) :
  findPeer h ps i = Some p ->
  p ∈ ps /\ exists n, h !! p = Some n /\ id n = i.
Proof.
  induction ps as [|q ps IH]; simpl; [discriminate|].
  destruct (h !! q) as [n|] eqn:Hq.
  - destruct (decide (id n = i)) as [He|Hne].
    + intros [= <-]. split; [apply elem_of_cons; auto | eauto].
    + intros H. destruct (IH H) as [Hin Hn]. split; [apply elem_of_cons|]; auto.
  - intros H. destruct (IH H) as [Hin Hn]. split; [apply elem_of_cons|]; auto.
Qed.

Lemma findPeer_None (h : list RaftNode) (ps : list addr) (i : Z) :
  findPeer h ps i = None <->
  forall p n, p ∈ ps -> h !! p = Some n -> id n <> i.
Proof.
  induction ps as [|q ps IH]; simpl.
  - split; [|done]. intros _ p n H. by apply elem_of_nil in H.
  - destruct (h !! q) as [m|] eqn:Hq.
    + destruct (decide (id m = i)) as [He|Hne].
      * split; [discriminate|]. intros H. exfalso.
        apply (H q m); [apply elem_of_cons; auto | done | done].
      * rewrite IH. split.
        -- intros H p n [->|Hin]%elem_of_cons Hp; [congruence | eauto].
        -- intros H p n Hin. apply H, elem_of_cons. auto.
    + rewrite IH. split.
      * intros H p n [->|Hin]%elem_of_cons Hp; [congruence | eauto].
      * intros H p n Hin. apply H, elem_of_cons. auto.
Qed.

(** ** Handlers on one node *)

Lemma resetIfSet_fields (r : Z) (rn : RaftNode) :
  id (resetIfSet r rn) = id rn /\
  currentTerm (resetIfSet r rn) = currentTerm rn /\
  votedFor (resetIfSet r rn) = votedFor rn /\
  state (resetIfSet r rn) = state rn /\
  peers (resetIfSet r rn) = peers rn.
Proof. unfold resetIfSet. by destruct (electionTimer rn). Qed.

(** C6: a RequestVote of a term below the node's own is not granted and
    leaves the node as it was, field for field (term, role, vote and
    election timer included). *)
Theorem handleRequestVote_stale (rn : RaftNode) (args : RequestVoteArgs) (r : Z) :
  rv_Term args < currentTerm rn ->
  handleRequestVote rn args r =
    (rn, {| rp_Term := currentTerm rn; rp_VoteGranted := false |}).
Proof.
  intros Hlt. unfold handleRequestVote.
  destruct (decide (rv_Term args > currentTerm rn)) as [Hgt|_]; [lia|].
  destruct (decide (rv_Term args < currentTerm rn)); [reflexivity | contradiction].
Qed.

Lemma handleRequestVote_stale_witness :
  handleRequestVote (set_currentTerm 2 (NewRaftNode 3))
      {| rv_Term := 1; rv_CandidateID := 1 |} 0 =
    (set_currentTerm 2 (NewRaftNode 3),
     {| rp_Term := 2; rp_VoteGranted := false |}).
Proof. apply handleRequestVote_stale. simpl. lia. Defined.

(** C3, amended: no handler lowers the term, provided that an election is
    not started at the largest [int]; in particular a message of a lower
    term never lowers it. *)
Theorem term_monotone_below_MaxInt (h : Handler) (rn : RaftNode) :
  (h = HStartElection -> state rn <> Leader -> currentTerm rn < MaxInt) ->
  term_monotone h rn.
Proof.
  intros Hmax. unfold term_monotone. destruct h as [|args r| |args r]; simpl.
  - unfold startElection.
    destruct (state rn) eqn:Hs; simpl; try lia;
      (assert (currentTerm rn < MaxInt) as Hlt by (apply Hmax; congruence));
      unfold incr; case_decide; lia.
  - unfold handleRequestVote. repeat case_decide; simpl;
      rewrite ?(proj1 (proj2 (resetIfSet_fields _ _))); simpl; lia.
  - unfold receiveVote. case_decide; simpl; lia.
  - unfold handleHeartbeat. case_decide;
      rewrite ?(proj1 (proj2 (resetIfSet_fields _ _))); simpl; lia.
Qed.

Lemma term_monotone_witness : term_monotone HStartElection (NewRaftNode 1).
Proof.
  apply term_monotone_below_MaxInt. intros _ _. vm_compute. reflexivity.
Defined.

(** C3, as stated, fails where [currentTerm++] wraps around. *)
Lemma term_wraps_at_MaxInt :
  ~ term_monotone HStartElection (set_currentTerm MaxInt (NewRaftNode 1)).
Proof. unfold term_monotone. vm_compute. intros H. by apply H. Qed.

(** C2, amended: a node that is not Leader becomes Leader exactly when a
    vote grant reaches it while it is Candidate; no count is kept, so one
    grant is enough whatever the size of the cluster.  With the node's own
    vote that makes two votes, which is the quorum [floor(N/2) + 1] only
    for [N = 2] and [N = 3].  Starting a candidacy never makes a Leader. *)
Theorem leader_on_first_grant (h : Handler) (rn : RaftNode) (N : nat) :
  state rn <> Leader ->
  (state (handle h rn) = Leader <-> h = HReceiveVote /\ state rn = Candidate) /\
  (quorum N = 2%nat <-> N = 2%nat \/ N = 3%nat).
Proof.
  intros Hs. split.
  - destruct h as [|args r| |args r]; simpl.
    + unfold startElection. destruct (state rn); simpl; split;
        intros H; try discriminate; try contradiction; by destruct H.
    + unfold handleRequestVote. split; [|by intros [? _]].
      repeat case_decide; simpl;
        rewrite ?(proj1 (proj2 (proj2 (proj2 (resetIfSet_fields _ _)))));
        simpl; intros Hx; try discriminate; contradiction.
    + unfold receiveVote. case_decide as Hc; simpl; split.
      * intros Hx. contradiction.
      * intros [_ Hx]. contradiction.
      * intros _. split; [done|]. by destruct (decide (state rn = Candidate)).
      * done.
    + unfold handleHeartbeat. split; [|by intros [? _]].
      case_decide;
        rewrite ?(proj1 (proj2 (proj2 (proj2 (resetIfSet_fields _ _)))));
        simpl; intros Hx; try discriminate; contradiction.
  - unfold quorum. split.
    + intros H.
      assert (N / 2 = 1)%nat as H1 by lia.
      pose proof (Nat.div_mod_eq N 2) as Hd.
      pose proof (Nat.mod_upper_bound N 2 ltac:(lia)) as Hm. lia.
    + intros [-> | ->]; reflexivity.
Qed.

Lemma leader_on_first_grant_witness :
  (state (handle HReceiveVote (set_state Candidate (NewRaftNode 1))) = Leader <->
   HReceiveVote = HReceiveVote /\
   state (set_state Candidate (NewRaftNode 1)) = Candidate) /\
  (quorum 3 = 2%nat <-> 3%nat = 2%nat \/ 3%nat = 3%nat).
Proof. apply leader_on_first_grant. simpl. discriminate. Defined.

(** C2, as stated, fails twice.  In a cluster of five a node is Leader on
    two votes, its own and one grant, where the quorum is three; and the
    only node of a cluster of one holds the quorum of one vote as soon as
    it stands, yet it is Candidate, with no goroutine left that could
    tell it otherwise. *)
Lemma leader_without_quorum :
  (run run_five_nodes (mesh [1; 2; 3; 4; 5]) =
     Next (after run_five_nodes (mesh [1; 2; 3; 4; 5])) /\
   ~ leader_has_quorum (after run_five_nodes (mesh [1; 2; 3; 4; 5]))) /\
  (run run_single_node (mesh [1]) = Next (after run_single_node (mesh [1])) /\
   exists rn, nodes (after run_single_node (mesh [1])) = [rn] /\
     state rn = Candidate /\
     votesFor (after run_single_node (mesh [1])) rn = quorum 1 /\
     spawned (after run_single_node (mesh [1])) = []).
Proof.
  split; split.
  - vm_compute. reflexivity.
  - intros H.
    pose (rn := {| id := 1; currentTerm := 1; votedFor := 1; state := Leader;
                   electionTimer := Some {| armed := false; fired := false;
                                            duration := 150 |};
                   peers := [0; 1; 2; 3; 4]%nat; voteReqChan := [];
                   voteReplyChan := []; heartbeatChan := [] |}).
    assert (nodes (after run_five_nodes (mesh [1; 2; 3; 4; 5])) !! 0%nat
            = Some rn) as Hn by (vm_compute; reflexivity).
    specialize (H 0%nat rn Hn eq_refl). vm_compute in H. lia.
  - vm_compute. reflexivity.
  - vm_compute. eexists. repeat split; reflexivity.
Qed.

(** The handlers other than [handleHeartbeat] leave no vote of an older
    term behind when they raise the term. *)
Lemma term_advance_resets_vote_elsewhere (h : Handler) (rn : RaftNode) :
  (forall args r, h <> HHandleHeartbeat args r) ->
  term_advance_resets_vote h rn.
Proof.
  intros Hh. unfold term_advance_resets_vote.
  destruct h as [|args r| |args r]; simpl.
  - unfold startElection. destruct (state rn); simpl; try lia; auto.
  - unfold handleRequestVote. repeat case_decide; simpl;
      rewrite ?(proj1 (proj2 (resetIfSet_fields _ _))),
              ?(proj1 (proj2 (proj2 (resetIfSet_fields _ _))));
      simpl; try lia; auto.
  - unfold receiveVote. case_decide; simpl; lia.
  - by destruct (Hh args r).
Qed.

(** C4: [handleHeartbeat] adopts a higher term and keeps [votedFor].  In
    the cluster of [main], node 3 votes for node 1 in term 1, node 2 wins
    term 2, and its first heartbeat takes node 3 into term 2 with the vote
    of term 1 still on node 1. *)
Theorem handleHeartbeat_keeps_old_vote :
  run run_heartbeat_new_term main_cluster =
    Next (after run_heartbeat_new_term main_cluster) /\
  exists rn args,
    nodes (after run_heartbeat_new_term main_cluster) !! 2%nat = Some rn /\
    heartbeatChan rn = [args] /\
    currentTerm rn = 1 /\ votedFor rn = 1 /\ hb_Term args = 2 /\
    currentTerm (handleHeartbeat rn args 0) = 2 /\
    votedFor (handleHeartbeat rn args 0) = 1 /\
    ~ term_advance_resets_vote (HHandleHeartbeat args 0) rn.
Proof.
  split; [vm_compute; reflexivity|].
  unfold term_advance_resets_vote. vm_compute.
  eexists. eexists. split; [reflexivity|].
  repeat split; try reflexivity.
  intros H. destruct (H eq_refl) as [H1|H1]; discriminate.
Qed.

(** C8, amended: a Leader becomes Follower exactly on a RequestVote of a
    strictly higher term or on a Heartbeat of a term at least its own; a
    Heartbeat of the Leader's own term makes it Follower and leaves the
    term as it is. *)
Theorem leader_steps_down (h : Handler) (rn : RaftNode) :
  state rn = Leader ->
  (state (handle h rn) = Follower <-> demotes h rn) /\
  (forall args r, h = HHandleHeartbeat args r ->
     hb_Term args = currentTerm rn ->
     state (handle h rn) = Follower /\
     currentTerm (handle h rn) = currentTerm rn).
Proof.
  intros Hs. split.
  - destruct h as [|args r| |args r]; simpl.
    + unfold startElection. rewrite Hs. simpl. rewrite Hs. by split.
    + unfold handleRequestVote. repeat case_decide; simpl;
        rewrite ?(proj1 (proj2 (proj2 (proj2 (resetIfSet_fields _ _)))));
        simpl; rewrite ?Hs; split; intros Hx; try done; try lia.
    + unfold receiveVote. case_decide as Hc; simpl; rewrite ?Hs; [by split|].
      congruence.
    + unfold handleHeartbeat. case_decide;
        rewrite ?(proj1 (proj2 (proj2 (proj2 (resetIfSet_fields _ _)))));
        simpl; rewrite ?Hs; split; intros H'; try done; try lia.
  - intros args r -> Heq. simpl. unfold handleHeartbeat.
    case_decide; [|lia].
    rewrite (proj1 (proj2 (resetIfSet_fields _ _))),
            (proj1 (proj2 (proj2 (proj2 (resetIfSet_fields _ _))))).
    simpl. auto.
Qed.

Lemma leader_steps_down_witness :
  (state (handle (HHandleHeartbeat {| hb_Term := 0; hb_LeaderID := 2 |} 0)
            (set_state Leader (NewRaftNode 1))) = Follower <->
   demotes (HHandleHeartbeat {| hb_Term := 0; hb_LeaderID := 2 |} 0)
           (set_state Leader (NewRaftNode 1))) /\
  (forall args r,
     HHandleHeartbeat {| hb_Term := 0; hb_LeaderID := 2 |} 0 =
       HHandleHeartbeat args r ->
     hb_Term args = currentTerm (set_state Leader (NewRaftNode 1)) ->
     state (handle (HHandleHeartbeat {| hb_Term := 0; hb_LeaderID := 2 |} 0)
              (set_state Leader (NewRaftNode 1))) = Follower /\
     currentTerm (handle (HHandleHeartbeat {| hb_Term := 0; hb_LeaderID := 2 |} 0)
                    (set_state Leader (NewRaftNode 1))) =
       currentTerm (set_state Leader (NewRaftNode 1))).
Proof. apply leader_steps_down. reflexivity. Defined.

(** C8, as stated, fails in the cluster of [main]: after the run that
    leaves nodes 1 and 2 both Leader in term 3, the first heartbeat of
    node 2 reaches node 1, which handles it and becomes Follower although
    the heartbeat carries node 1's own term. *)
Lemma leader_demoted_by_equal_term :
  run run_leader_heartbeat main_cluster =
    Next (after run_leader_heartbeat main_cluster) /\
  exists rn args,
    nodes (after run_leader_heartbeat main_cluster) !! 0%nat = Some rn /\
    heartbeatChan rn = [args] /\
    ~ leader_keeps_equal_term rn args 0.
Proof.
  split; [vm_compute; reflexivity|].
  unfold leader_keeps_equal_term. vm_compute.
  eexists. eexists. split; [reflexivity|]. split; [reflexivity|].
  intros H. destruct (H eq_refl eq_refl) as [H1 _]. discriminate.
Qed.

(** ** Events of the cluster *)

Lemma nodes_set_node_eq (c : Cluster) (a : addr) (rn rn' : RaftNode) :
  nodes c !! a = Some rn -> nodes (set_node a rn' c) !! a = Some rn'.
Proof.
  intros H. simpl. apply list_lookup_insert_eq. by eapply lookup_lt_Some.
Qed.

(** C5, amended: a vote grant delivered to a node changes no node unless
    that node is Candidate; delivered to a Candidate it makes the node
    Leader whatever the term of the granted request, which is not compared
    with the node's term. *)
Theorem grant_checks_role_only (c : Cluster) (k : nat) (v ca : addr)
    (args : RequestVoteArgs) (vn cn : RaftNode) :
  spawned c !! k = Some (GoReceiveVote v args) ->
  nodes c !! v = Some vn ->
  getPeer (nodes c) vn (rv_CandidateID args) = Some ca ->
  nodes c !! ca = Some cn ->
  exists c', exec (EvGo k) c = Next c' /\
    (state cn <> Candidate -> nodes c' = nodes c) /\
    (state cn = Candidate -> nodes c' = <[ca := set_state Leader cn]> (nodes c)).
Proof.
  intros Hk Hv Hp Hc. unfold exec. rewrite Hk. simpl. rewrite Hv, Hp, Hc.
  unfold receiveVote. destruct (decide (state cn <> Candidate)) as [Hs|Hs].
  - eexists. split; [reflexivity|]. simpl. split.
    + intros _. by apply list_insert_id.
    + intros He. contradiction.
  - eexists. split; [reflexivity|]. simpl. split.
    + intros Hn. contradiction.
    + reflexivity.
Qed.

Lemma grant_checks_role_only_witness :
  exists c',
    exec (EvGo 1) (after run_stale_candidate main_cluster) = Next c' /\
    (state (node_at (after run_stale_candidate main_cluster) 0) <> Candidate ->
     nodes c' = nodes (after run_stale_candidate main_cluster)) /\
    (state (node_at (after run_stale_candidate main_cluster) 0) = Candidate ->
     nodes c' =
       <[0%nat := set_state Leader
                    (node_at (after run_stale_candidate main_cluster) 0)]>
         (nodes (after run_stale_candidate main_cluster))).
Proof.
  apply (grant_checks_role_only (after run_stale_candidate main_cluster)
           1 2 0 {| rv_Term := 1; rv_CandidateID := 1 |}
           (node_at (after run_stale_candidate main_cluster) 2)).
  - vm_compute. reflexivity.
  - vm_compute. reflexivity.
  - vm_compute. reflexivity.
  - vm_compute. reflexivity.
Defined.

(** C5, as stated, fails in the cluster of [main]: node 1 stood in term 1,
    node 3 granted, and by the time the grant arrives node 1 stands in
    term 3; the grant of term 1 makes it Leader of term 3. *)
Lemma stale_grant_elects :
  run run_stale_candidate main_cluster =
    Next (after run_stale_candidate main_cluster) /\
  ~ stale_grant_discarded (after run_stale_candidate main_cluster) 1.
Proof.
  split; [vm_compute; reflexivity|].
  unfold stale_grant_discarded.
  remember (after run_stale_candidate main_cluster) as c eqn:E.
  vm_compute in E. subst c. intros H.
  specialize (H 2%nat 0%nat _ _ _ _ eq_refl eq_refl eq_refl eq_refl eq_refl).
  assert (Hn := H ltac:(intros [_ Ht]; discriminate Ht)).
  vm_compute in Hn. discriminate Hn.
Qed.

(** C7, amended: the election timeout, processed by a node that is not
    Leader, makes the node Candidate, increments its term ([currentTerm++],
    which adds one below the largest [int]), sets [votedFor] to the node's
    own id and starts, for every peer whose id is not its own, a goroutine
    that sends a RequestVote with the new term.  [startElection] does not
    touch the election timer: it stays as the receive from its channel
    left it. *)
Theorem timeout_starts_election (c : Cluster) (a : addr) (rn : RaftNode)
    (t : Timer) :
  nodes c !! a = Some rn -> state rn <> Leader ->
  electionTimer rn = Some t -> fired t = true ->
  exists c' rn',
    exec (EvTimeout a) c = Next c' /\ nodes c' !! a = Some rn' /\
    state rn' = Candidate /\
    currentTerm rn' = incr (currentTerm rn) /\
    (currentTerm rn < MaxInt -> currentTerm rn' = currentTerm rn + 1) /\
    votedFor rn' = id rn /\
    (forall p pn, p ∈ peers rn -> nodes c !! p = Some pn -> id pn <> id rn ->
       GoSendVoteReq p {| rv_Term := currentTerm rn';
                          rv_CandidateID := id rn |} ∈ spawned c') /\
    electionTimer rn' = Some (Timer_receive t).
Proof.
  intros Hn Hs Ht Hf. unfold exec. rewrite Hn, Ht, Hf.
  unfold startElection. simpl.
  set (rn' := set_votedFor (id rn)
                (set_currentTerm (incr (currentTerm rn))
                   (set_state Candidate
                      (set_electionTimer (Some (Timer_receive t)) rn)))).
  assert (forall p pn, p ∈ peers rn -> nodes c !! p = Some pn ->
            id pn <> id rn ->
            GoSendVoteReq p {| rv_Term := incr (currentTerm rn);
                               rv_CandidateID := id rn |}
              ∈ spawned c ++ voteRequests (<[a := rn']> (nodes c)) rn'
                  {| rv_Term := incr (currentTerm rn);
                     rv_CandidateID := id rn |}) as Hsend.
  { intros p pn Hp Hpn Hid. apply elem_of_app. right.
    unfold voteRequests. apply list_elem_of_fmap. exists p.
    split; [reflexivity|]. apply others_spec.
    split; [exact Hp|]. exists pn. split; [|exact Hid].
    rewrite list_lookup_insert_ne; [exact Hpn|]. intros ->. congruence. }
  assert (incr (currentTerm rn) = currentTerm rn + 1 \/
          ~ currentTerm rn < MaxInt) as Hincr.
  { unfold incr. case_decide; [right; lia | left; reflexivity]. }
  assert (state rn <> Leader ->
          match state rn with
          | Leader => (set_electionTimer (Some (Timer_receive t)) rn, None)
          | _ => (rn', Some {| rv_Term := incr (currentTerm rn);
                               rv_CandidateID := id rn |})
          end = (rn', Some {| rv_Term := incr (currentTerm rn);
                              rv_CandidateID := id rn |})) as Hm.
  { by destruct (state rn). }
  rewrite (Hm Hs).
  eexists. exists rn'. split; [reflexivity|].
  split; [by eapply nodes_set_node_eq|].
  repeat split; try reflexivity; try exact Hsend.
  intros Hlt. simpl. destruct Hincr; [assumption | contradiction].
Qed.

Lemma timeout_starts_election_witness :
  exists c' rn',
    exec (EvTimeout 0) (after run_timer_expired main_cluster)
      = Next c' /\
    nodes c' !! 0%nat = Some rn' /\
    state rn' = Candidate /\
    currentTerm rn' =
      incr (currentTerm (node_at (after run_timer_expired main_cluster) 0)) /\
    (currentTerm (node_at (after run_timer_expired main_cluster) 0)
       < MaxInt ->
     currentTerm rn' =
       currentTerm (node_at (after run_timer_expired main_cluster) 0) + 1) /\
    votedFor rn' = id (node_at (after run_timer_expired main_cluster) 0) /\
    (forall p pn,
       p ∈ peers (node_at (after run_timer_expired main_cluster) 0) ->
       nodes (after run_timer_expired main_cluster) !! p = Some pn ->
       id pn <> id (node_at (after run_timer_expired main_cluster) 0) ->
       GoSendVoteReq p
         {| rv_Term := currentTerm rn';
            rv_CandidateID :=
              id (node_at (after run_timer_expired main_cluster) 0) |}
         ∈ spawned c') /\
    electionTimer rn' =
      Some (Timer_receive (Timer_fire (NewTimer (electionTimeout 0)))).
Proof.
  apply (timeout_starts_election
           (after run_timer_expired main_cluster) 0
           (node_at (after run_timer_expired main_cluster) 0)
           (Timer_fire (NewTimer (electionTimeout 0)))).
  - vm_compute. reflexivity.
  - vm_compute. discriminate.
  - vm_compute. reflexivity.
  - vm_compute. reflexivity.
Defined.

(** C7, as stated, fails on the timer: in the cluster of [main], node 1
    starts, its timer expires and the timeout is processed; afterwards the
    timer is not armed, and nothing will make node 1 stand again until a
    grant or a heartbeat resets it. *)
Lemma timeout_leaves_timer_unarmed :
  run run_timer_expired main_cluster =
    Next (after run_timer_expired main_cluster) /\
  ~ timeout_rearms (after run_timer_expired main_cluster) 0.
Proof.
  split; [vm_compute; reflexivity|].
  unfold timeout_rearms.
  remember (after run_timer_expired main_cluster) as c eqn:E.
  vm_compute in E. subst c. intros H.
  specialize (H _ _ _ eq_refl ltac:(discriminate) eq_refl eq_refl).
  destruct H as (t & Ht & Ha). vm_compute in Ht.
  injection Ht as <-. discriminate Ha.
Qed.

(** C10: [getPeer] returns nil exactly when no peer carries the id, and
    the goroutine that delivers a grant dereferences what [getPeer]
    returns: it runs without a nil dereference exactly when the
    [CandidateID] of the request is the id of some node in the voter's
    peers. *)
Theorem grant_path_nil_free (c : Cluster) (k : nat) (v : addr)
    (args : RequestVoteArgs) (vn : RaftNode) :
  spawned c !! k = Some (GoReceiveVote v args) ->
  nodes c !! v = Some vn ->
  (getPeer (nodes c) vn (rv_CandidateID args) = None <->
   ~ exists p pn, p ∈ peers vn /\ nodes c !! p = Some pn /\
                  id pn = rv_CandidateID args) /\
  (exec (EvGo k) c <> Panic <->
   exists p pn, p ∈ peers vn /\ nodes c !! p = Some pn /\
                id pn = rv_CandidateID args).
Proof.
  intros Hk Hv.
  assert (getPeer (nodes c) vn (rv_CandidateID args) = None <->
          ~ exists p pn, p ∈ peers vn /\ nodes c !! p = Some pn /\
                         id pn = rv_CandidateID args) as Hnil.
  { unfold getPeer. rewrite findPeer_None. split.
    - intros H (p & pn & Hin & Hp & Hid). by apply (H p pn).
    - intros H p pn Hin Hp Hid. apply H. eauto. }
  split; [exact Hnil|].
  unfold exec. rewrite Hk. simpl. rewrite Hv.
  destruct (getPeer (nodes c) vn (rv_CandidateID args)) as [ca|] eqn:Hg.
  - unfold getPeer in Hg. apply findPeer_Some in Hg as (Hin & cn & Hc & Hid).
    rewrite Hc. destruct (receiveVote cn) as [cn' started].
    split; [intros _; eauto | discriminate].
  - split; [intros H; by destruct H|].
    intros H. exfalso. by apply (proj1 Hnil).
Qed.

Lemma grant_path_nil_free_witness :
  (getPeer (nodes (after run_stale_candidate main_cluster))
     (node_at (after run_stale_candidate main_cluster) 2) 1 = None <->
   ~ exists p pn,
       p ∈ peers (node_at (after run_stale_candidate main_cluster) 2) /\
       nodes (after run_stale_candidate main_cluster) !! p = Some pn /\
       id pn = 1) /\
  (exec (EvGo 1) (after run_stale_candidate main_cluster) <> Panic <->
   exists p pn,
     p ∈ peers (node_at (after run_stale_candidate main_cluster) 2) /\
     nodes (after run_stale_candidate main_cluster) !! p = Some pn /\
     id pn = 1).
Proof.
  apply (grant_path_nil_free (after run_stale_candidate main_cluster)
           1 2 {| rv_Term := 1; rv_CandidateID := 1 |}
           (node_at (after run_stale_candidate main_cluster) 2)).
  - vm_compute. reflexivity.
  - vm_compute. reflexivity.
Defined.

(** ** The heartbeat loop *)

(** The goroutine at the head of the loop: with the node not Leader it
    returns, sending nothing; with the node Leader it enters the [range]
    over the peers with the term it has just read. *)
Lemma broadcaster_check (c : Cluster) (k : nat) (a : addr) (rn : RaftNode) :
  spawned c !! k = Some (GoSendHeartbeats a HBCheck) ->
  nodes c !! a = Some rn ->
  (state rn <> Leader -> exec (EvGo k) c = Next (finish k c)) /\
  (state rn = Leader ->
   exec (EvGo k) c =
     Next (resume k (GoSendHeartbeats a (HBSend (currentTerm rn) (peers rn))) c)).
Proof.
  intros Hk Ha. unfold exec. rewrite Hk. simpl. rewrite Ha.
  unfold heartbeatTerm.
  destruct (decide (state rn <> Leader)) as [Hs|Hs]; split; done.
Qed.

(** Inside the [range] the goroutine never looks at the role again: a
    demotion that happens now does not stop the batch in progress. *)
Lemma broadcaster_send (c : Cluster) (k : nat) (a p : addr) (term : Z)
    (rest : list addr) (rn pn : RaftNode) :
  spawned c !! k = Some (GoSendHeartbeats a (HBSend term (p :: rest))) ->
  nodes c !! a = Some rn -> nodes c !! p = Some pn ->
  id pn <> id rn -> (length (heartbeatChan pn) < chanCap)%nat ->
  exec (EvGo k) c =
    Next (resume k (GoSendHeartbeats a (HBSend term rest))
            (set_node p
               (set_heartbeatChan
                  (heartbeatChan pn ++
                     [{| hb_Term := term; hb_LeaderID := id rn |}]) pn) c)).
Proof.
  intros Hk Ha Hp Hid Hlen. unfold exec. rewrite Hk. simpl. rewrite Ha, Hp.
  destruct (decide (id pn = id rn)); [done|].
  by destruct (decide (length (heartbeatChan pn) < chanCap)%nat).
Qed.

(** C9: the loop sends one batch for each iteration that finds the node
    Leader; the first iteration that finds it not Leader sends nothing
    and ends the loop, whatever the node is afterwards.  So once the node
    is demoted, at most the batch in progress goes out before the loop
    stops for good. *)
Theorem sendHeartbeats_stops (h : list RaftNode) (obs1 obs2 : list RaftNode)
    (rn : RaftNode) :
  Forall (fun o => state o = Leader) obs1 -> state rn <> Leader ->
  sendHeartbeats h (obs1 ++ rn :: obs2) =
    (fun o => heartbeatBatch h o (currentTerm o)) <$> obs1.
Proof.
  intros Hl Hs. induction Hl as [|o obs1 Ho _ IH]; simpl.
  - unfold heartbeatTerm. by destruct (decide (state rn <> Leader)).
  - unfold heartbeatTerm at 1.
    destruct (decide (state o <> Leader)) as [Hn|_]; [contradiction|].
    by rewrite IH.
Qed.

Lemma sendHeartbeats_stops_witness :
  sendHeartbeats (nodes main_cluster)
    ([set_state Leader (set_peers [0; 1; 2]%nat (NewRaftNode 1))] ++
     set_peers [0; 1; 2]%nat (NewRaftNode 1) ::
     [set_state Leader (set_peers [0; 1; 2]%nat (NewRaftNode 1))]) =
  (fun o => heartbeatBatch (nodes main_cluster) o (currentTerm o)) <$>
    [set_state Leader (set_peers [0; 1; 2]%nat (NewRaftNode 1))].
Proof.
  apply sendHeartbeats_stops.
  - repeat constructor.
  - simpl. discriminate.
Defined.

(** ** One leader per term in small clusters *)

Lemma evolves_refl (rn : RaftNode) : evolves rn rn.
Proof. unfold evolves. repeat split; auto; lia. Qed.

Lemma committed_evolves (vn vn' : RaftNode) (t cand : Z) :
  evolves vn vn' -> cand <> -1 ->
  committed vn t cand -> committed vn' t cand.
Proof.
  intros (_ & _ & Hle & Hv) Hc [Hgt | [Ht Hvote]]; unfold committed.
  - left. lia.
  - destruct (decide (currentTerm vn' = currentTerm vn)) as [He|Hne].
    + right. split; [lia|]. destruct (Hv He) as [Hnull|Hsame]; congruence.
    + left. lia.
Qed.

Section Update.
(** One step replaces the node at [a]. *)
Context (c c' : Cluster) (a : addr) (rn rn' : RaftNode).
Hypothesis Hinv : election_inv c.
Hypothesis Ha : nodes c !! a = Some rn.
Hypothesis Hnodes : nodes c' = <[a := rn']> (nodes c).
Hypothesis Hev : evolves rn rn'.

Lemma upd_lookup (b : addr) (nb' : RaftNode) :
  nodes c' !! b = Some nb' ->
  (b = a /\ nb' = rn') \/ (b <> a /\ nodes c !! b = Some nb').
Proof.
  rewrite Hnodes. destruct (decide (a = b)) as [->|Hne].
  - rewrite list_lookup_insert_eq by (by eapply lookup_lt_Some).
    intros [= <-]. by left.
  - rewrite list_lookup_insert_ne by done. intros H. right. by split.
Qed.

Lemma upd_lookup_a : nodes c' !! a = Some rn'.
Proof.
  rewrite Hnodes. apply list_lookup_insert_eq. by eapply lookup_lt_Some.
Qed.

Lemma upd_lookup_ne (b : addr) : b <> a -> nodes c' !! b = nodes c !! b.
Proof. intros H. rewrite Hnodes. by apply list_lookup_insert_ne. Qed.

Lemma upd_lookup_old (b : addr) (nb : RaftNode) :
  nodes c !! b = Some nb ->
  exists nb', nodes c' !! b = Some nb' /\ evolves nb nb'.
Proof.
  intros Hb. destruct (decide (b = a)) as [->|Hne].
  - exists rn'. split; [apply upd_lookup_a|]. congruence.
  - exists nb. rewrite upd_lookup_ne by done. split; [done|apply evolves_refl].
Qed.

Lemma upd_back (b : addr) (nb' : RaftNode) :
  nodes c' !! b = Some nb' ->
  exists nb, nodes c !! b = Some nb /\ evolves nb nb'.
Proof.
  intros [[-> ->]|[Hne Hb]]%upd_lookup.
  - eauto.
  - exists nb'. split; [done|apply evolves_refl].
Qed.

Lemma upd_issuedBy (args : RequestVoteArgs) (ca : addr) :
  issuedBy c args ca -> issuedBy c' args ca.
Proof.
  intros (cn & Hc & Hid & Hle).
  destruct (upd_lookup_old ca cn Hc) as (cn' & Hc' & (Hi & _ & Ht & _)).
  exists cn'. split; [done|]. split; [congruence | lia].
Qed.

Lemma upd_committed (v : addr) (vn : RaftNode) (t cand : Z) :
  nodes c !! v = Some vn -> cand <> -1 -> committed vn t cand ->
  exists vn', nodes c' !! v = Some vn' /\ committed vn' t cand.
Proof.
  intros Hv Hcand Hcom.
  destruct (upd_lookup_old v vn Hv) as (vn' & Hv' & Hevv).
  exists vn'. split; [done|]. by eapply committed_evolves.
Qed.

Lemma upd_ids (b1 b2 : addr) (n1 n2 : RaftNode) :
  nodes c' !! b1 = Some n1 -> nodes c' !! b2 = Some n2 ->
  id n1 = id n2 -> b1 = b2.
Proof.
  intros (m1 & Hm1 & (Hi1 & _))%upd_back (m2 & Hm2 & (Hi2 & _))%upd_back Hid.
  eapply (inv_ids c Hinv); eauto. congruence.
Qed.

Lemma upd_ids_valid (b : addr) (nb : RaftNode) :
  nodes c' !! b = Some nb -> id nb <> -1.
Proof.
  intros (m & Hm & (Hi & _))%upd_back. rewrite Hi.
  by eapply (inv_ids_valid c Hinv).
Qed.

Lemma upd_small : (length (nodes c') <= 3)%nat.
Proof. rewrite Hnodes, length_insert. apply (inv_small c Hinv). Qed.

Lemma issuedBy_valid (args : RequestVoteArgs) (ca : addr) :
  issuedBy c args ca -> rv_CandidateID args <> -1.
Proof.
  intros (cn & Hc & Hid & _). rewrite <- Hid.
  by eapply (inv_ids_valid c Hinv).
Qed.

(** The invariant is re-established from what the step did to the node
    at [a], to the requests and to the grants. *)
Lemma upd_inv :
  (state rn' <> Follower -> votedFor rn' = id rn') ->
  (forall p args, inflightVoteReq c' p args ->
     inflightVoteReq c p args \/ (issuedBy c' args a /\ a <> p)) ->
  (forall v args, GoReceiveVote v args ∈ spawned c' ->
     GoReceiveVote v args ∈ spawned c \/
     (v = a /\ (exists ca, issuedBy c' args ca /\ ca <> a) /\
      committed rn' (rv_Term args) (rv_CandidateID args))) ->
  (state rn' = Leader ->
     (state rn = Leader /\ currentTerm rn' = currentTerm rn) \/
     exists v vn, v <> a /\ nodes c !! v = Some vn /\
                  committed vn (currentTerm rn') (id rn)) ->
  (forall b1 b2 t, winning c' b1 t -> winning c' b2 t -> b1 = b2) ->
  election_inv c'.
Proof.
  intros Hself Hreq Hgrant Hlead Hwin. split.
  - apply upd_ids.
  - apply upd_ids_valid.
  - apply upd_small.
  - intros b nb [[-> ->]|[Hne Hb]]%upd_lookup; [done|].
    by apply (inv_self_vote c Hinv b).
  - intros p args [Hold|Hnew]%Hreq; [|eauto].
    destruct (inv_requests c Hinv p args Hold) as (ca & Hca & Hne).
    exists ca. split; [by apply upd_issuedBy | done].
  - intros v args [Hold|(-> & (ca & Hca & Hne) & Hcom)]%Hgrant.
    + destruct (inv_grants c Hinv v args Hold) as (ca & vn & Hca & Hne & Hv & Hcom).
      destruct (upd_committed v vn _ _ Hv (issuedBy_valid _ _ Hca) Hcom)
        as (vn' & Hv' & Hcom').
      exists ca, vn'. split; [by apply upd_issuedBy|]. auto.
    + exists ca, rn'. split; [done|]. split; [done|].
      split; [apply upd_lookup_a | done].
  - intros b nb Hb Hs.
    assert (exists nb0, nodes c !! b = Some nb0 /\ id nb0 = id nb) as Hid.
    { destruct (upd_back b nb Hb) as (m & Hm & (Hi & _)). eauto. }
    assert (exists v vn, v <> b /\ nodes c !! v = Some vn /\
              committed vn (currentTerm nb) (id nb)) as (v & vn & Hne & Hv & Hcom).
    { destruct (upd_lookup b nb Hb) as [[-> ->]|[Hne Hb0]].
      - destruct (Hlead Hs) as [[Hs0 Ht]|(v & vn & Hne & Hv & Hcom)].
        + destruct (inv_leader c Hinv a rn Ha Hs0) as (v & vn & Hne & Hv & Hcom).
          exists v, vn. destruct Hev as (Hi & _). rewrite Ht, Hi. auto.
        + exists v, vn. destruct Hev as (Hi & _). rewrite Hi. auto.
      - by apply (inv_leader c Hinv b nb). }
    destruct Hid as (nb0 & Hb0 & Hi0).
    assert (id nb <> -1) as Hvalid.
    { rewrite <- Hi0. by eapply (inv_ids_valid c Hinv). }
    destruct (upd_committed v vn _ _ Hv Hvalid Hcom) as (vn' & Hv' & Hcom').
    eauto.
  - exact Hwin.
Qed.

(** The grants of the new cluster are grants of the old one, and the
    node at [a] is Follower or as it was: whoever is winning was winning
    before. *)
Lemma upd_winning_back :
  (forall v args, GoReceiveVote v args ∈ spawned c' ->
     GoReceiveVote v args ∈ spawned c) ->
  (state rn' = Follower \/
   (state rn' = state rn /\ currentTerm rn' = currentTerm rn)) ->
  forall b t, winning c' b t -> winning c b t.
Proof.
  intros Hgrant Hquiet b t (nb & Hb & Ht & Hw).
  destruct (upd_lookup b nb Hb) as [[-> ->]|[Hne Hb0]].
  - exists rn. split; [done|].
    destruct Hev as (Hi & _).
    destruct Hquiet as [Hf|[Hs Hterm]].
    + destruct Hw as [Hl|[Hc _]]; congruence.
    + split; [congruence|]. rewrite <- Hs, <- Hi.
      destruct Hw as [Hl|[Hc (v & Hv)]]; [by left|].
      right. split; [done|]. exists v. by apply Hgrant.
  - exists nb. split; [done|]. split; [done|].
    destruct Hw as [Hl|[Hc (v & Hv)]]; [by left|].
    right. split; [done|]. exists v. by apply Hgrant.
Qed.

(** The steps that elect nobody and start no candidacy. *)
Lemma upd_inv_quiet :
  (state rn' = Follower \/
   (state rn' = state rn /\ currentTerm rn' = currentTerm rn /\
    votedFor rn' = votedFor rn)) ->
  (forall p args, inflightVoteReq c' p args -> inflightVoteReq c p args) ->
  (forall v args, GoReceiveVote v args ∈ spawned c' ->
     GoReceiveVote v args ∈ spawned c) ->
  election_inv c'.
Proof.
  intros Hquiet Hreq Hgrant. apply upd_inv.
  - intros Hs. destruct Hquiet as [Hf|(Hs' & _ & Hv)]; [done|].
    destruct Hev as (Hi & _). rewrite Hv, Hi.
    apply (inv_self_vote c Hinv a rn Ha). congruence.
  - intros p args H. left. by apply Hreq.
  - intros v args H. left. by apply Hgrant.
  - intros Hs. left. destruct Hquiet as [Hf|(Hs' & Ht & _)]; [congruence|].
    split; congruence.
  - intros b1 b2 t H1 H2. apply (inv_winning c Hinv b1 b2 t).
    + apply upd_winning_back; [done| |done].
      destruct Hquiet as [Hf|(Hs' & Ht & _)]; auto.
    + apply upd_winning_back; [done| |done].
      destruct Hquiet as [Hf|(Hs' & Ht & _)]; auto.
Qed.
End Update.

Lemma elem_of_insert_inv {A : Type} (l : list A) (k : nat) (x y : A) :
  y ∈ <[k := x]> l -> y = x \/ y ∈ l.
Proof.
  intros [j Hj]%list_elem_of_lookup. rewrite list_lookup_insert in Hj.
  case_decide.
  - left. congruence.
  - right. by eapply list_elem_of_lookup_2.
Qed.

(** The invariant does not look at the heartbeat goroutines, the timers
    or the heartbeat channels. *)
Lemma inv_same_nodes (c c' : Cluster) :
  election_inv c -> nodes c' = nodes c ->
  (forall p m, GoSendVoteReq p m ∈ spawned c' ->
     GoSendVoteReq p m ∈ spawned c) ->
  (forall v m, GoReceiveVote v m ∈ spawned c' ->
     GoReceiveVote v m ∈ spawned c) ->
  election_inv c'.
Proof.
  intros Hinv Hn Hreq Hgrant.
  assert (forall args ca, issuedBy c args ca -> issuedBy c' args ca) as Hiss.
  { intros args ca (cn & Hc & H). exists cn. by rewrite Hn. }
  assert (forall b t, winning c' b t -> winning c b t) as Hwin.
  { intros b t (nb & Hb & Ht & Hw). rewrite Hn in Hb.
    exists nb. split; [done|]. split; [done|].
    destruct Hw as [Hl|[Hc (v & Hv)]]; [by left|].
    right. split; [done|]. exists v. by apply Hgrant. }
  split; rewrite ?Hn.
  - apply (inv_ids c Hinv).
  - apply (inv_ids_valid c Hinv).
  - apply (inv_small c Hinv).
  - apply (inv_self_vote c Hinv).
  - intros p args Hin.
    assert (inflightVoteReq c p args) as Hold.
    { destruct Hin as [Hs|(pn & Hp & Hm)]; [left; by apply Hreq|].
      right. exists pn. by rewrite <- Hn. }
    destruct (inv_requests c Hinv p args Hold) as (ca & Hca & Hne). eauto.
  - intros v args Hin%Hgrant.
    destruct (inv_grants c Hinv v args Hin) as (ca & vn & Hca & Hne & Hv & Hcom).
    exists ca, vn. auto.
  - apply (inv_leader c Hinv).
  - intros b1 b2 t H1%Hwin H2%Hwin. by apply (inv_winning c Hinv b1 b2 t).
Qed.

(** *** What the handlers do to the protected fields *)

Lemma handleRequestVote_fields (rn : RaftNode) (args : RequestVoteArgs) (r : Z) :
  id (handleRequestVote rn args r).1 = id rn /\
  peers (handleRequestVote rn args r).1 = peers rn /\
  voteReqChan (handleRequestVote rn args r).1 = voteReqChan rn.
Proof.
  unfold handleRequestVote, resetIfSet.
  repeat case_decide; simpl; try destruct (electionTimer rn); simpl; auto.
Qed.

Lemma handleRequestVote_refused (rn : RaftNode) (args : RequestVoteArgs) (r : Z) :
  rp_VoteGranted (handleRequestVote rn args r).2 = false ->
  (handleRequestVote rn args r).1 = rn.
Proof.
  unfold handleRequestVote.
  destruct (decide (rv_Term args > currentTerm rn)) as [Hgt|Hle].
  - simpl. destruct (decide (rv_Term args < rv_Term args)); [lia|].
    simpl. discriminate.
  - repeat case_decide; simpl; [done|discriminate|done].
Qed.

Lemma handleRequestVote_granted (rn : RaftNode) (args : RequestVoteArgs) (r : Z) :
  rp_VoteGranted (handleRequestVote rn args r).2 = true ->
  currentTerm (handleRequestVote rn args r).1 = rv_Term args /\
  votedFor (handleRequestVote rn args r).1 = rv_CandidateID args /\
  currentTerm rn <= rv_Term args /\
  (currentTerm rn < rv_Term args ->
   state (handleRequestVote rn args r).1 = Follower) /\
  (currentTerm rn = rv_Term args ->
   state (handleRequestVote rn args r).1 = state rn /\
   (votedFor rn = -1 \/ votedFor rn = rv_CandidateID args)).
Proof.
  unfold handleRequestVote.
  destruct (decide (rv_Term args > currentTerm rn)) as [Hgt|Hle]; simpl.
  - destruct (decide (rv_Term args < rv_Term args)); [lia|].
    simpl. intros _.
    destruct (resetIfSet_fields r
      (set_votedFor (rv_CandidateID args)
         (set_votedFor (-1)
            (set_state Follower (set_currentTerm (rv_Term args) rn)))))
      as (_ & -> & -> & -> & _).
    simpl. repeat split; try lia; auto.
  - destruct (decide (rv_Term args < currentTerm rn)); [simpl; discriminate|].
    destruct (decide (votedFor rn = -1 \/ votedFor rn = rv_CandidateID args))
      as [Hv|_]; [|simpl; discriminate].
    simpl. intros _.
    destruct (resetIfSet_fields r (set_votedFor (rv_CandidateID args) rn))
      as (_ & -> & -> & -> & _).
    simpl. repeat split; try lia; auto.
Qed.

Lemma handleHeartbeat_fields (rn : RaftNode) (args : HeartbeatArgs) (r : Z) :
  id (handleHeartbeat rn args r) = id rn /\
  peers (handleHeartbeat rn args r) = peers rn /\
  voteReqChan (handleHeartbeat rn args r) = voteReqChan rn /\
  votedFor (handleHeartbeat rn args r) = votedFor rn /\
  currentTerm rn <= currentTerm (handleHeartbeat rn args r) /\
  (state (handleHeartbeat rn args r) = Follower \/
   (state (handleHeartbeat rn args r) = state rn /\
    currentTerm (handleHeartbeat rn args r) = currentTerm rn)).
Proof.
  unfold handleHeartbeat, resetIfSet.
  case_decide; simpl; try destruct (electionTimer rn); simpl;
    repeat split; auto; lia.
Qed.

(** Whoever is winning a term has a voter other than itself that is
    committed to it for that term. *)
Lemma winning_voter (c : Cluster) (b : addr) (t : Z) :
  election_inv c -> winning c b t ->
  exists nb v vn, nodes c !! b = Some nb /\ currentTerm nb = t /\
    state nb <> Follower /\ v <> b /\ nodes c !! v = Some vn /\
    committed vn t (id nb).
Proof.
  intros Hinv (nb & Hb & Ht & [Hl|[Hc (v & Hv)]]).
  - destruct (inv_leader c Hinv b nb Hb Hl) as (v & vn & Hne & Hvn & Hcom).
    exists nb, v, vn. rewrite <- Ht. repeat split; auto. congruence.
  - destruct (inv_grants c Hinv v _ Hv)
      as (ca & vn & (cn & Hcn & Hid & _) & Hne & Hvn & Hcom).
    simpl in *.
    assert (ca = b) as -> by (eapply (inv_ids c Hinv); eauto).
    exists nb, v, vn. repeat split; auto. congruence.
Qed.

(** A node stands for election. *)
Lemma inv_candidacy (c c' : Cluster) (a : addr) (rn rn' : RaftNode) :
  election_inv c -> nodes c !! a = Some rn ->
  nodes c' = <[a := rn']> (nodes c) ->
  id rn' = id rn -> peers rn' = peers rn ->
  voteReqChan rn' = voteReqChan rn ->
  currentTerm rn' = currentTerm rn + 1 ->
  votedFor rn' = id rn -> state rn' = Candidate ->
  spawned c' = spawned c ++
    voteRequests (nodes c') rn'
      {| rv_Term := currentTerm rn'; rv_CandidateID := id rn' |} ->
  election_inv c'.
Proof.
  intros Hinv Ha Hnodes Hid Hpeers Hchan Hterm Hvote Hstate Hspawn.
  assert (evolves rn rn') as Hev.
  { unfold evolves. repeat split; auto; try lia. }
  assert (forall v args, GoReceiveVote v args ∈ spawned c' ->
            GoReceiveVote v args ∈ spawned c) as Hgrant.
  { intros v args. rewrite Hspawn, elem_of_app. intros [Hold|Hnew]; [done|].
    unfold voteRequests in Hnew.
    apply list_elem_of_fmap in Hnew as (q & Hq & _). discriminate Hq. }
  apply (upd_inv c c' a rn rn'); auto.
  - intros _. congruence.
  - intros p args [Hs|(pn & Hp & Hm)].
    + rewrite Hspawn in Hs. apply elem_of_app in Hs as [Hold|Hnew].
      * left. by left.
      * right. unfold voteRequests in Hnew.
        apply list_elem_of_fmap in Hnew as (q & Hq & Hin).
        injection Hq as -> ->.
        apply others_spec in Hin as (_ & n & Hn & Hne).
        split.
        -- exists rn'. split; [by eapply upd_lookup_a|]. simpl. split; [done|lia].
        -- intros ->. rewrite (upd_lookup_a c c' q rn rn' Ha Hnodes) in Hn.
           congruence.
    + left. right.
      destruct (upd_lookup c c' a rn rn' Ha Hnodes p pn Hp) as [[-> ->]|[Hne Hp0]].
      * exists rn. split; [done|]. congruence.
      * exists pn. by split.
  - intros Hl. congruence.
  - assert (forall b t, winning c' b t -> b <> a /\ winning c b t) as Hback.
    { intros b t (nb & Hb & Ht & Hw).
      destruct (upd_lookup c c' a rn rn' Ha Hnodes b nb Hb) as [[-> ->]|[Hne Hb0]].
      - exfalso. destruct Hw as [Hl|[_ (v & Hv)]]; [congruence|].
        apply Hgrant in Hv.
        destruct (inv_grants c Hinv v _ Hv)
          as (ca & vn & (cn & Hcn & Hidc & Hle) & _).
        simpl in *.
        assert (ca = a) as -> by (eapply (inv_ids c Hinv); eauto; congruence).
        assert (cn = rn) as -> by congruence. lia.
      - split; [done|]. exists nb. split; [done|]. split; [done|].
        destruct Hw as [Hl|[Hc (v & Hv)]]; [by left|].
        right. split; [done|]. exists v. by apply Hgrant. }
    intros b1 b2 t [_ H1]%Hback [_ H2]%Hback.
    by apply (inv_winning c Hinv b1 b2 t).
Qed.

(** A node grants the request [args] that it took from its channel. *)
Lemma inv_vote (c c' : Cluster) (a : addr) (rn rn' : RaftNode)
    (args : RequestVoteArgs) :
  election_inv c -> nodes c !! a = Some rn ->
  nodes c' = <[a := rn']> (nodes c) ->
  args ∈ voteReqChan rn ->
  id rn' = id rn -> peers rn' = peers rn ->
  (forall m, m ∈ voteReqChan rn' -> m ∈ voteReqChan rn) ->
  currentTerm rn' = rv_Term args ->
  votedFor rn' = rv_CandidateID args ->
  currentTerm rn <= rv_Term args ->
  (currentTerm rn < rv_Term args -> state rn' = Follower) ->
  (currentTerm rn = rv_Term args ->
   state rn' = state rn /\
   (votedFor rn = -1 \/ votedFor rn = rv_CandidateID args)) ->
  spawned c' = spawned c ++ [GoReceiveVote a args] ->
  election_inv c'.
Proof.
  intros Hinv Ha Hnodes Hargs Hid Hpeers Hchan Hterm Hvote Hle Hup Heq Hspawn.
  destruct (inv_requests c Hinv a args) as (ca & Hca & Hne).
  { right. eauto. }
  assert (evolves rn rn') as Hev.
  { unfold evolves. repeat split; auto; lia. }
  assert (state rn' = Follower) as Hfollower.
  { destruct (decide (currentTerm rn < rv_Term args)) as [Hlt|Hnlt]; [auto|].
    destruct Heq as (Hs & Hv); [lia|]. rewrite Hs.
    destruct (decide (state rn = Follower)) as [|Hnf]; [done|]. exfalso.
    pose proof (inv_self_vote c Hinv a rn Ha Hnf) as Hself.
    pose proof (inv_ids_valid c Hinv a rn Ha) as Hvalid.
    destruct Hv as [Hv|Hv]; [congruence|].
    destruct Hca as (cn & Hcn & Hidc & _).
    apply Hne. eapply (inv_ids c Hinv); eauto. congruence. }
  pose proof (upd_issuedBy c c' a rn rn' Ha Hnodes Hev args ca Hca) as Hca'.
  apply (upd_inv c c' a rn rn'); auto.
  - intros Hs. congruence.
  - intros p m [Hs|(pn & Hp & Hm)]; left.
    + rewrite Hspawn in Hs. apply elem_of_app in Hs as [Hold|Hnew]; [by left|].
      apply list_elem_of_singleton in Hnew. discriminate Hnew.
    + right.
      destruct (upd_lookup c c' a rn rn' Ha Hnodes p pn Hp) as [[-> ->]|[Hnp Hp0]].
      * exists rn. split; [done|]. by apply Hchan.
      * exists pn. by split.
  - intros v m. rewrite Hspawn, elem_of_app. intros [Hold|Hnew]; [by left|].
    apply list_elem_of_singleton in Hnew. injection Hnew as -> ->.
    right. split; [done|]. split; [eauto|]. right. by split.
  - intros Hl. congruence.
  - (* winning in c' is winning in c, or the candidate of the new grant *)
    assert (forall b t, winning c' b t ->
              winning c b t \/
              (b = ca /\ t = rv_Term args /\
               exists nb, nodes c !! b = Some nb /\ currentTerm nb = t /\
                          state nb = Candidate)) as Hback.
    { intros b t (nb & Hb & Ht & Hw).
      destruct (upd_lookup c c' a rn rn' Ha Hnodes b nb Hb) as [[-> ->]|[Hnb Hb0]].
      - exfalso. destruct Hw as [Hl|[Hc _]]; congruence.
      - destruct Hw as [Hl|[Hc (v & Hv)]].
        + left. exists nb. split; [done|]. split; [done|]. by left.
        + rewrite Hspawn in Hv. apply elem_of_app in Hv as [Hold|Hnew].
          * left. exists nb. split; [done|]. split; [done|]. right. eauto.
          * right. apply list_elem_of_singleton in Hnew.
            injection Hnew as _ Hm. subst args. simpl in *.
            destruct Hca as (cn & Hcn & Hidc & _). simpl in *.
            split; [eapply (inv_ids c Hinv); eauto|].
            split; [done|]. exists nb. auto. }
    (* an old winner and the new one cannot share the term *)
    assert (forall b, winning c b (rv_Term args) ->
              (exists nb, nodes c !! ca = Some nb /\
                 currentTerm nb = rv_Term args /\ state nb = Candidate) ->
              b = ca) as Hclash.
    { intros b Hw (nc & Hnc & Htc & Hsc).
      destruct (decide (b = ca)) as [|Hbc]; [done|]. exfalso.
      destruct (winning_voter c b _ Hinv Hw)
        as (nb & v & vn & Hb & Htb & Hsb & Hvb & Hv & Hcom).
      pose proof (inv_small c Hinv) as Hsmall.
      pose proof (lookup_lt_Some _ _ _ Ha) as La.
      pose proof (lookup_lt_Some _ _ _ Hb) as Lb.
      pose proof (lookup_lt_Some _ _ _ Hnc) as Lc.
      pose proof (lookup_lt_Some _ _ _ Hv) as Lv.
      assert (id nb <> id nc) as Hids.
      { intros He. apply Hbc. eapply (inv_ids c Hinv); eauto. }
      assert (b <> a) as Hba.
      { intros ->. assert (nb = rn) as -> by congruence.
        destruct Heq as (Hs & Hvv); [lia|].
        pose proof (inv_self_vote c Hinv a rn Ha Hsb) as Hself.
        pose proof (inv_ids_valid c Hinv a rn Ha) as Hvalid.
        destruct Hvv as [Hvv|Hvv]; [congruence|].
        destruct Hca as (cn & Hcn & Hidc & _).
        assert (cn = nc) as -> by congruence. congruence. }
      assert (v <> ca) as Hvc.
      { intros ->. assert (vn = nc) as -> by congruence.
        assert (votedFor nc = id nc) as Hself.
        { eapply (inv_self_vote c Hinv); eauto. congruence. }
        destruct Hcom as [Hgt|[_ Hvv]]; [lia | congruence]. }
      assert (v <> a) as Hva.
      { intros ->. assert (vn = rn) as -> by congruence.
        destruct Hcom as [Hgt|[Htv Hvv]]; [lia|].
        destruct Heq as (_ & Hvv'); [done|].
        pose proof (inv_ids_valid c Hinv b nb Hb) as Hvalid.
        destruct Hca as (cn & Hcn & Hidc & _).
        assert (cn = nc) as -> by congruence.
        destruct Hvv' as [Hvv'|Hvv']; congruence. }
      lia. }
    intros b1 b2 t [H1|(-> & -> & H1)]%Hback [H2|(-> & Ht2 & H2)]%Hback.
    + by apply (inv_winning c Hinv b1 b2 t).
    + subst t. by apply Hclash.
    + symmetry. by apply Hclash.
    + done.
Qed.

(** A step that leaves term and vote of the node at [a] alone, or that
    takes the node to Follower without lowering its term and without
    touching a vote of its term. *)
Lemma inv_quiet (c c' : Cluster) (a : addr) (rn rn' : RaftNode) :
  election_inv c -> nodes c !! a = Some rn ->
  nodes c' = <[a := rn']> (nodes c) ->
  id rn' = id rn -> peers rn' = peers rn ->
  votedFor rn' = votedFor rn ->
  currentTerm rn <= currentTerm rn' ->
  (state rn' = Follower \/
   (state rn' = state rn /\ currentTerm rn' = currentTerm rn)) ->
  (forall m, m ∈ voteReqChan rn' ->
     m ∈ voteReqChan rn \/ GoSendVoteReq a m ∈ spawned c) ->
  (forall p m, GoSendVoteReq p m ∈ spawned c' ->
     GoSendVoteReq p m ∈ spawned c) ->
  (forall v m, GoReceiveVote v m ∈ spawned c' ->
     GoReceiveVote v m ∈ spawned c) ->
  election_inv c'.
Proof.
  intros Hinv Ha Hnodes Hid Hpeers Hvote Hle Hquiet Hchan Hsend Hgrant.
  apply (upd_inv_quiet c c' a rn rn'); auto.
  - unfold evolves. repeat split; auto.
  - destruct Hquiet as [Hf|[Hs Ht]]; auto.
  - intros p m [Hs|(pn & Hp & Hm)].
    + left. by apply Hsend.
    + destruct (upd_lookup c c' a rn rn' Ha Hnodes p pn Hp) as [[-> ->]|[Hne Hp0]].
      * destruct (Hchan m Hm) as [Hold|Hgo]; [right; eauto | by left].
      * right. eauto.
Qed.

(** A grant reaches a Candidate that is still in the term of the
    request. *)
Lemma inv_elect (c c' : Cluster) (k : nat) (v ca : addr)
    (args : RequestVoteArgs) (cn : RaftNode) :
  election_inv c ->
  spawned c !! k = Some (GoReceiveVote v args) ->
  nodes c !! ca = Some cn -> id cn = rv_CandidateID args ->
  state cn = Candidate -> currentTerm cn = rv_Term args ->
  nodes c' = <[ca := set_state Leader cn]> (nodes c) ->
  spawned c' = delete k (spawned c) ++ [GoSendHeartbeats ca HBCheck] ->
  election_inv c'.
Proof.
  intros Hinv Hk Hc Hid Hs Ht Hnodes Hspawn.
  assert (forall g, g ∈ spawned c' ->
            g ∈ spawned c \/ g = GoSendHeartbeats ca HBCheck) as Hsub.
  { intros g. rewrite Hspawn, elem_of_app, list_elem_of_singleton.
    intros [Hd|He]; [left; by eapply list_elem_of_delete_inv | by right]. }
  assert (forall w m, GoReceiveVote w m ∈ spawned c' ->
            GoReceiveVote w m ∈ spawned c) as Hgrant.
  { intros w m [Hold|He]%Hsub; [done | discriminate]. }
  assert (GoReceiveVote v args ∈ spawned c) as Hin
    by (by eapply list_elem_of_lookup_2).
  assert (evolves cn (set_state Leader cn)) as Hev.
  { unfold evolves. simpl. repeat split; auto; lia. }
  apply (upd_inv c c' ca cn (set_state Leader cn) Hinv Hc Hnodes Hev); simpl.
  - intros _. apply (inv_self_vote c Hinv ca cn Hc). congruence.
  - intros p m [Hsn|(pn & Hp & Hm)]; left.
    + left. destruct (Hsub _ Hsn) as [Hold|He]; [done | discriminate].
    + right.
      destruct (upd_lookup c c' ca cn _ Hc Hnodes p pn Hp) as [[-> ->]|[Hne Hp0]];
        eauto.
  - intros w m Hw. left. by apply Hgrant.
  - intros _. right.
    destruct (inv_grants c Hinv v args Hin)
      as (ca0 & vn & (cn0 & Hcn0 & Hid0 & _) & Hne & Hv & Hcom).
    assert (ca0 = ca) as -> by (eapply (inv_ids c Hinv); eauto; congruence).
    exists v, vn. rewrite Ht, Hid. auto.
  - assert (forall b t, winning c' b t -> winning c b t) as Hback.
    { intros b t (nb & Hb & Htb & Hw).
      destruct (upd_lookup c c' ca cn _ Hc Hnodes b nb Hb) as [[-> ->]|[Hne Hb0]].
      - simpl in *. exists cn. split; [done|]. split; [done|]. right.
        split; [done|]. exists v. destruct args as [ta ia]. simpl in *.
        by subst.
      - exists nb. split; [done|]. split; [done|].
        destruct Hw as [Hl|[Hcand (w & Hw)]]; [by left|].
        right. split; [done|]. exists w. by apply Hgrant. }
    intros b1 b2 t H1%Hback H2%Hback. by apply (inv_winning c Hinv b1 b2 t).
Qed.

Lemma resume_heartbeats_sub (l : list Goroutine) (k : nat) (a : addr)
    (pc : HBpc) (g : Goroutine) :
  g ∈ <[k := GoSendHeartbeats a pc]> l ->
  (forall b pc', g <> GoSendHeartbeats b pc') -> g ∈ l.
Proof.
  intros [->|Hin]%elem_of_insert_inv Hg; [|done]. by destruct (Hg a pc).
Qed.

(** Every admissible event keeps the invariant. *)
Lemma step_inv (c c' : Cluster) (ev : Event) :
  election_inv c -> admissible c ev = true -> exec ev c = Next c' ->
  election_inv c'.
Proof.
  intros Hinv Hadm Hexec. destruct ev as [a r|a|a|a r|a r|k]; simpl in Hexec.
  - (* the loop starts *)
    destruct (nodes c !! a) as [rn|] eqn:Ha; [|discriminate].
    destruct (electionTimer rn) eqn:Ht; [discriminate|].
    injection Hexec as <-.
    apply (inv_quiet c _ a rn (resetElectionTimer r rn) Hinv Ha);
      simpl; auto; lia.
  - (* the timer expires *)
    destruct (nodes c !! a) as [rn|] eqn:Ha; [|discriminate].
    destruct (electionTimer rn) as [t|] eqn:Ht; [|discriminate].
    destruct (armed t); [|discriminate].
    injection Hexec as <-.
    apply (inv_quiet c _ a rn
             (set_electionTimer (Some (Timer_fire t)) rn) Hinv Ha);
      simpl; auto; lia.
  - (* the timeout is processed *)
    simpl in Hadm.
    destruct (nodes c !! a) as [rn|] eqn:Ha; [|discriminate].
    apply bool_decide_eq_true in Hadm.
    destruct (electionTimer rn) as [t|] eqn:Ht; [|discriminate].
    destruct (fired t); [|discriminate].
    unfold startElection in Hexec. simpl in Hexec.
    assert (state rn <> Leader -> incr (currentTerm rn) = currentTerm rn + 1)
      as Hincr.
    { intros Hs. unfold incr. case_decide; [|done].
      destruct Hadm as [Hl|Hlt]; [done | lia]. }
    destruct (state rn) eqn:Hs; simpl in Hexec; injection Hexec as <-.
    + eapply (inv_candidacy c _ a rn _ Hinv Ha); simpl; try reflexivity.
      apply Hincr. discriminate.
    + eapply (inv_candidacy c _ a rn _ Hinv Ha); simpl; try reflexivity.
      apply Hincr. discriminate.
    + apply (inv_quiet c _ a rn
               (set_electionTimer (Some (Timer_receive t)) rn) Hinv Ha);
        simpl; auto; lia.
  - (* a RequestVote is handled *)
    destruct (nodes c !! a) as [rn|] eqn:Ha; [|discriminate].
    destruct (electionTimer rn) as [t|] eqn:Ht; [|discriminate].
    destruct (voteReqChan rn) as [|args q] eqn:Hq; [discriminate|].
    pose proof (handleRequestVote_fields (set_voteReqChan q rn) args r)
      as (Hid & Hpeers & Hchan).
    pose proof (handleRequestVote_granted (set_voteReqChan q rn) args r) as Hyes.
    pose proof (handleRequestVote_refused (set_voteReqChan q rn) args r) as Hno.
    destruct (handleRequestVote (set_voteReqChan q rn) args r) as [rn2 reply].
    simpl in *.
    destruct (rp_VoteGranted reply) eqn:Hg; injection Hexec as <-.
    + destruct (Hyes eq_refl) as (Hterm & Hvote & Hle & Hup & Heq).
      apply (inv_vote c _ a rn rn2 args Hinv Ha); simpl; auto.
      * rewrite Hq. apply elem_of_cons. by left.
      * intros m. rewrite Hchan, Hq, elem_of_cons. auto.
    + rewrite (Hno eq_refl).
      apply (inv_quiet c _ a rn (set_voteReqChan q rn) Hinv Ha);
        simpl; auto; try lia.
      intros m Hm. left. rewrite Hq. apply elem_of_cons. by right.
  - (* a Heartbeat is handled *)
    destruct (nodes c !! a) as [rn|] eqn:Ha; [|discriminate].
    destruct (electionTimer rn) as [t|] eqn:Ht; [|discriminate].
    destruct (heartbeatChan rn) as [|args q] eqn:Hq; [discriminate|].
    injection Hexec as <-.
    pose proof (handleHeartbeat_fields (set_heartbeatChan q rn) args r)
      as (Hid & Hpeers & Hchan & Hvote & Hle & Hquiet).
    apply (inv_quiet c _ a rn
             (handleHeartbeat (set_heartbeatChan q rn) args r) Hinv Ha);
      simpl in *; auto.
    intros m. rewrite Hchan. auto.
  - (* a goroutine advances *)
    destruct (spawned c !! k) as [g|] eqn:Hk; [|discriminate].
    assert (g ∈ spawned c) as Hin by (by eapply list_elem_of_lookup_2).
    destruct g as [p args|v args|a pc]; simpl in Hexec.
    + (* a RequestVote enters the channel of p *)
      destruct (nodes c !! p) as [pn|] eqn:Hp; [|discriminate].
      destruct (decide _); [|discriminate].
      injection Hexec as <-.
      apply (inv_quiet c _ p pn (set_voteReqChan (voteReqChan pn ++ [args]) pn)
               Hinv Hp); simpl; auto; try lia.
      * intros m [Hm|Hm]%elem_of_app; [by left|].
        apply list_elem_of_singleton in Hm as ->. by right.
      * intros q m Hm. by eapply list_elem_of_delete_inv.
      * intros q m Hm. by eapply list_elem_of_delete_inv.
    + (* a grant reaches the candidate *)
      unfold admissible, grantTarget in Hadm. rewrite Hk in Hadm.
      destruct (nodes c !! v) as [vn|] eqn:Hv; [|discriminate].
      destruct (getPeer (nodes c) vn (rv_CandidateID args)) as [ca|] eqn:Hg;
        [|discriminate].
      destruct (nodes c !! ca) as [cn|] eqn:Hc; [|discriminate].
      apply bool_decide_eq_true in Hadm.
      unfold getPeer in Hg. apply findPeer_Some in Hg as (_ & cn0 & Hc0 & Hid).
      assert (cn0 = cn) as -> by congruence.
      unfold receiveVote in Hexec.
      destruct (decide (state cn <> Candidate)) as [Hs|Hs];
        injection Hexec as <-.
      * apply (inv_quiet c _ ca cn cn Hinv Hc); simpl; auto; try lia.
        -- intros q m Hm. by eapply list_elem_of_delete_inv.
        -- intros q m Hm. by eapply list_elem_of_delete_inv.
      * assert (state cn = Candidate) as Hcand
          by (by destruct (decide (state cn = Candidate))).
        by apply (inv_elect c _ k v ca args cn Hinv Hk Hc Hid Hcand
                    (Hadm Hcand)).
    + (* the heartbeat loop *)
      assert (forall c1 pc', nodes c1 = nodes c ->
                spawned c1 = <[k := GoSendHeartbeats a pc']> (spawned c) ->
                election_inv c1) as Hresume.
      { intros c1 pc' Hn Hsp. apply (inv_same_nodes c c1 Hinv Hn).
        - intros q m. rewrite Hsp. intros Hm.
          eapply resume_heartbeats_sub; [exact Hm | discriminate].
        - intros q m. rewrite Hsp. intros Hm.
          eapply resume_heartbeats_sub; [exact Hm | discriminate]. }
      destruct pc as [|term [|p rest]].
      * destruct (nodes c !! a) as [rn|] eqn:Ha; [|discriminate].
        destruct (heartbeatTerm rn); injection Hexec as <-.
        -- by eapply Hresume.
        -- apply (inv_same_nodes c (finish k c) Hinv eq_refl); simpl;
             intros q m Hm; by eapply list_elem_of_delete_inv.
      * injection Hexec as <-. by eapply Hresume.
      * destruct (nodes c !! a) as [rn|] eqn:Ha; [|discriminate].
        destruct (nodes c !! p) as [pn|] eqn:Hp; [|discriminate].
        destruct (decide (id pn = id rn));
          [injection Hexec as <-; by eapply Hresume|].
        destruct (decide _); [|discriminate].
        injection Hexec as <-.
        apply (inv_quiet c _ p pn
                 (set_heartbeatChan
                    (heartbeatChan pn ++
                       [{| hb_Term := term; hb_LeaderID := id rn |}]) pn)
                 Hinv Hp); simpl; auto; try lia.
        -- intros q m Hm.
           eapply resume_heartbeats_sub; [exact Hm | discriminate].
        -- intros q m Hm.
           eapply resume_heartbeats_sub; [exact Hm | discriminate].
Qed.

Lemma mesh_lookup (ids : list Z) (a : addr) (rn : RaftNode) :
  nodes (mesh ids) !! a = Some rn ->
  exists i, ids !! a = Some i /\
            rn = set_peers (seq 0 (length ids)) (NewRaftNode i).
Proof.
  unfold mesh. simpl. rewrite list_lookup_fmap, fmap_Some.
  intros (i & Hi & ->). eauto.
Qed.

(** The cluster that [main] wires satisfies the invariant before any
    node has started. *)
Lemma mesh_inv (ids : list Z) :
  NoDup ids -> -1 ∉ ids -> (length ids <= 3)%nat -> election_inv (mesh ids).
Proof.
  intros Hnd Hvalid Hlen. split.
  - intros a b na nb (i & Hi & ->)%mesh_lookup (j & Hj & ->)%mesh_lookup Hid.
    simpl in Hid. subst j. by eapply NoDup_lookup.
  - intros a rn (i & Hi & ->)%mesh_lookup. simpl. intros ->.
    apply Hvalid. by eapply list_elem_of_lookup_2.
  - unfold mesh. simpl. by rewrite length_fmap.
  - intros a rn (i & Hi & ->)%mesh_lookup. simpl. done.
  - intros p args [Hs|(pn & (i & Hi & ->)%mesh_lookup & Hm)]; simpl in *.
    + by apply elem_of_nil in Hs.
    + by apply elem_of_nil in Hm.
  - intros v args Hs. simpl in Hs. by apply elem_of_nil in Hs.
  - intros a rn (i & Hi & ->)%mesh_lookup. simpl. discriminate.
  - intros a b t (na & (i & Hi & ->)%mesh_lookup & _ & [Hl|[Hc _]]) _;
      simpl in *; discriminate.
Qed.

Lemma run_admissible_inv (evs : list Event) (c c' : Cluster) :
  election_inv c -> run_admissible evs c = Next c' -> election_inv c'.
Proof.
  revert c. induction evs as [|ev evs IH]; intros c Hinv Hrun; simpl in Hrun.
  - by injection Hrun as <-.
  - destruct (admissible c ev) eqn:Hadm; [|discriminate].
    destruct (exec ev c) as [c1| |] eqn:Hexec; try discriminate.
    apply (IH c1); [|done]. by eapply step_inv.
Qed.

Lemma inv_single_leader (c : Cluster) : election_inv c -> single_leader c.
Proof.
  intros Hinv a b na nb Ha Hb Hsa Hsb Ht.
  apply (inv_winning c Hinv a b (currentTerm na)).
  - exists na. split; [done|]. split; [done|]. by left.
  - exists nb. split; [done|]. split; [done|]. by left.
Qed.

(** C1, amended: in a cluster of at most three nodes with distinct ids,
    none of them -1, wired as [main] does, every run in which no election
    starts at the largest [int] and every grant reaches its candidate
    while the candidate is still in the term of the granted request ends
    in a cluster where no two distinct nodes are Leader with the same
    term; the timeouts, RequestVotes, grants and heartbeats may
    interleave in any way. *)
Theorem single_leader_small_cluster (ids : list Z) (evs : list Event)
    (c : Cluster) :
  NoDup ids -> -1 ∉ ids -> (length ids <= 3)%nat ->
  run_admissible evs (mesh ids) = Next c ->
  single_leader c.
Proof.
  intros Hnd Hvalid Hlen Hrun.
  apply inv_single_leader.
  eapply run_admissible_inv; [|exact Hrun]. by apply mesh_inv.
Qed.

Lemma single_leader_small_cluster_witness :
  single_leader (after run_first_election main_cluster).
Proof.
  apply (single_leader_small_cluster [1; 2; 3] run_first_election).
  - apply (bool_decide_unpack _). vm_compute. exact I.
  - apply (bool_decide_unpack _). vm_compute. exact I.
  - simpl. lia.
  - vm_compute. reflexivity.
Defined.

(** C1, as stated, fails.  In the cluster of [main] a grant of term 1
    that arrives late makes node 1 Leader of term 3 next to node 2,
    Leader of term 3 by a grant of that term.  And in a cluster of four,
    with every grant delivered in its term, two candidates of term 1 are
    each granted by one of the other two nodes. *)
Lemma two_leaders_same_term :
  (run run_two_leaders main_cluster =
     Next (after run_two_leaders main_cluster) /\
   ~ single_leader (after run_two_leaders main_cluster)) /\
  (run_admissible run_four_nodes (mesh [1; 2; 3; 4]) =
     Next (after run_four_nodes (mesh [1; 2; 3; 4])) /\
   ~ single_leader (after run_four_nodes (mesh [1; 2; 3; 4]))).
Proof.
  split; split; try (vm_compute; reflexivity).
  - remember (after run_two_leaders main_cluster) as c eqn:E.
    vm_compute in E. subst c. intros H.
    specialize (H 0%nat 1%nat _ _ eq_refl eq_refl eq_refl eq_refl eq_refl).
    discriminate H.
  - remember (after run_four_nodes (mesh [1; 2; 3; 4])) as c eqn:E.
    vm_compute in E. subst c. intros H.
    specialize (H 0%nat 1%nat _ _ eq_refl eq_refl eq_refl eq_refl eq_refl).
    discriminate H.
Qed.

(** The run that ends with two Leaders in the cluster of [main] is not
    admissible: it stops at the delivery of the late grant. *)
Example run_two_leaders_not_admissible :
  run_admissible run_two_leaders main_cluster = Blocked.
Proof. vm_compute. reflexivity. Qed.

(** * Further properties of the handlers *)

(** X1: the decision of [handleRequestVote].  The vote is granted exactly
    when the request carries a higher term than the node's, or the node's
    own term while the node has voted for nobody or for this candidate.
    A grant leaves the node in the term of the request with its vote on
    the candidate; a refusal leaves the node as it was. *)
Theorem handleRequestVote_decision (rn : RaftNode) (args : RequestVoteArgs)
    (r : Z) :
  (rp_VoteGranted (handleRequestVote rn args r).2 = true <->
   rv_Term args > currentTerm rn \/
   (rv_Term args = currentTerm rn /\
    (votedFor rn = -1 \/ votedFor rn = rv_CandidateID args))) /\
  (rp_VoteGranted (handleRequestVote rn args r).2 = true ->
   currentTerm (handleRequestVote rn args r).1 = rv_Term args /\
   votedFor (handleRequestVote rn args r).1 = rv_CandidateID args) /\
  (rp_VoteGranted (handleRequestVote rn args r).2 = false ->
   (handleRequestVote rn args r).1 = rn).
Proof.
  split; [|split].
  - split.
    + intros Hg.
      destruct (handleRequestVote_granted rn args r Hg)
        as (_ & _ & Hle & _ & Heq).
      destruct (decide (currentTerm rn = rv_Term args)) as [He|Hne].
      * right. split; [done|]. by apply Heq.
      * left. lia.
    + unfold handleRequestVote. intros [Hgt|[He Hv]].
      * destruct (decide (rv_Term args > currentTerm rn)); [|done]. simpl.
        by destruct (decide (rv_Term args < rv_Term args)); [lia|].
      * destruct (decide (rv_Term args > currentTerm rn)); [lia|].
        destruct (decide (rv_Term args < currentTerm rn)); [lia|].
        by destruct (decide (votedFor rn = -1 \/
                             votedFor rn = rv_CandidateID args)).
  - intros Hg.
    destruct (handleRequestVote_granted rn args r Hg) as (Ht & Hv & _).
    by split.
  - apply handleRequestVote_refused.
Qed.

(** X2: [handleHeartbeat] ignores a heartbeat of a lower term altogether;
    any other heartbeat makes the node Follower in the term of the
    heartbeat and leaves its id, its peers and its vote alone. *)
Theorem handleHeartbeat_decision (rn : RaftNode) (args : HeartbeatArgs)
    (r : Z) :
  (hb_Term args < currentTerm rn -> handleHeartbeat rn args r = rn) /\
  (hb_Term args >= currentTerm rn ->
   state (handleHeartbeat rn args r) = Follower /\
   currentTerm (handleHeartbeat rn args r) = hb_Term args /\
   votedFor (handleHeartbeat rn args r) = votedFor rn /\
   id (handleHeartbeat rn args r) = id rn /\
   peers (handleHeartbeat rn args r) = peers rn).
Proof.
  unfold handleHeartbeat. split; intros Hcmp.
  - destruct (decide (hb_Term args >= currentTerm rn)); [lia | done].
  - destruct (decide (hb_Term args >= currentTerm rn)); [|done].
    destruct (resetIfSet_fields r
                (set_state Follower (set_currentTerm (hb_Term args) rn)))
      as (-> & -> & -> & -> & ->).
    done.
Qed.

(** X3: the two message handlers leave the node in the larger of its own
    term and the term of the message. *)
Theorem message_term_is_max (rn : RaftNode) (rv : RequestVoteArgs)
    (hb : HeartbeatArgs) (r : Z) :
  currentTerm (handleRequestVote rn rv r).1 =
    Z.max (currentTerm rn) (rv_Term rv) /\
  currentTerm (handleHeartbeat rn hb r) = Z.max (currentTerm rn) (hb_Term hb).
Proof.
  split.
  - unfold handleRequestVote. repeat case_decide; simpl;
      rewrite ?(proj1 (proj2 (resetIfSet_fields _ _))); simpl; lia.
  - unfold handleHeartbeat. case_decide;
      rewrite ?(proj1 (proj2 (resetIfSet_fields _ _))); simpl; lia.
Qed.

Lemma incr_changes (x : Z) : incr x <> x.
Proof. unfold incr, MaxInt, MinInt. case_decide; lia. Qed.

(** X4: no handler changes a vote within a term: when a handler leaves
    the term as it was and the node had voted, the vote is still on the
    same candidate. *)
Theorem vote_stable_within_term (h : Handler) (rn : RaftNode) :
  currentTerm (handle h rn) = currentTerm rn -> votedFor rn <> -1 ->
  votedFor (handle h rn) = votedFor rn.
Proof.
  destruct h as [|args r| |args r]; simpl.
  - unfold startElection. destruct (state rn); simpl; auto;
      intros He; by destruct (incr_changes (currentTerm rn)).
  - unfold handleRequestVote. repeat case_decide; simpl;
      rewrite ?(proj1 (proj2 (resetIfSet_fields _ _))),
              ?(proj1 (proj2 (proj2 (resetIfSet_fields _ _))));
      simpl; intros; try done; lia.
  - unfold receiveVote. by case_decide.
  - intros _ _. unfold handleHeartbeat. case_decide;
      rewrite ?(proj1 (proj2 (proj2 (resetIfSet_fields _ _)))); done.
Qed.

Lemma vote_stable_within_term_witness :
  votedFor (handle (HHandleRequestVote {| rv_Term := 0; rv_CandidateID := 2 |} 0)
              (set_votedFor 1 (NewRaftNode 3))) =
  votedFor (set_votedFor 1 (NewRaftNode 3)).
Proof. apply vote_stable_within_term; simpl; [reflexivity | lia]. Defined.

(** ** The driver *)

Lemma scanLeader_from_Some (obs : list RaftNode) (i : nat)
    (l : option addr) (a : addr) :
  scanLeader_from i obs l = Some a <->
  (exists j n, a = (i + j)%nat /\ obs !! j = Some n /\ state n = Leader /\
     forall k m, (j < k)%nat -> obs !! k = Some m -> state m <> Leader) \/
  (l = Some a /\ forall k m, obs !! k = Some m -> state m <> Leader).
Proof.
  revert i l. induction obs as [|n obs IH]; intros i l; simpl.
  - split.
    + intros ->. right. split; [done|]. intros k m H.
      by rewrite lookup_nil in H.
    + intros [(j & n & _ & H & _)|[-> _]]; [by rewrite lookup_nil in H | done].
  - rewrite IH. split.
    + intros [(j & m & -> & Hj & Hs & Hlater)|[Hl Hnone]].
      * left. exists (S j), m. split; [lia|]. split; [done|]. split; [done|].
        intros [|k] m' Hk Hm'; [lia|]. simpl in Hm'.
        apply (Hlater k m'); [lia | done].
      * destruct (decide (state n = Leader)) as [Hn|Hn].
        -- injection Hl as <-. left. exists 0%nat, n.
           split; [lia|]. split; [done|]. split; [done|].
           intros [|k] m Hk Hm; [lia|]. simpl in Hm. by apply (Hnone k m).
        -- right. split; [done|]. intros [|k] m Hm; simpl in Hm.
           ++ by injection Hm as <-.
           ++ by apply (Hnone k m).
    + intros [(j & m & -> & Hj & Hs & Hlater)|[-> Hnone]].
      * destruct j as [|j]; simpl in Hj.
        -- injection Hj as ->. right. split.
           ++ destruct (decide (state m = Leader)); [|done]. f_equal. lia.
           ++ intros k m' Hm'. apply (Hlater (S k) m'); [lia | done].
        -- left. exists j, m. split; [lia|]. split; [done|]. split; [done|].
           intros k m' Hk Hm'. apply (Hlater (S k) m'); [lia | done].
      * right. split.
        -- destruct (decide (state n = Leader)) as [Hn|Hn]; [|done].
           by destruct (Hnone 0%nat n).
        -- intros k m Hm. by apply (Hnone (S k) m).
Qed.

Lemma scanLeader_from_None (obs : list RaftNode) (i : nat) (l : option addr) :
  scanLeader_from i obs l = None <->
  l = None /\ forall k m, obs !! k = Some m -> state m <> Leader.
Proof.
  revert i l. induction obs as [|n obs IH]; intros i l; simpl.
  - split; [|by intros [-> _]]. intros ->. split; [done|].
    intros k m H. by rewrite lookup_nil in H.
  - rewrite IH. split.
    + intros [Hl Hnone].
      destruct (decide (state n = Leader)) as [Hn|Hn]; [done|].
      split; [done|]. intros [|k] m Hm; simpl in Hm.
      * by injection Hm as <-.
      * by apply (Hnone k m).
    + intros [-> Hnone]. split.
      * destruct (decide (state n = Leader)) as [Hn|Hn]; [|done].
        by destruct (Hnone 0%nat n).
      * intros k m Hm. by apply (Hnone (S k) m).
Qed.

(** X5: the scan of [main] for the leader returns the last node of the
    slice that it saw as Leader, and nil exactly when it saw none.  When
    two nodes are Leader, only the later one is crashed. *)
Theorem scanLeader_last (obs : list RaftNode) (a : addr) :
  (scanLeader obs = Some a <->
   (exists n, obs !! a = Some n /\ state n = Leader) /\
   forall k m, (a < k)%nat -> obs !! k = Some m -> state m <> Leader) /\
  (scanLeader obs = None <->
   forall k m, obs !! k = Some m -> state m <> Leader).
Proof.
  unfold scanLeader. split.
  - rewrite scanLeader_from_Some. split.
    + intros [(j & n & -> & Hj & Hs & Hlater)|[Hl _]]; [|done].
      split; [eauto | done].
    + intros [(n & Hn & Hs) Hlater]. left. exists a, n. auto.
  - rewrite scanLeader_from_None. split; [by intros [_ H] | by split].
Qed.

(** X6: the crash of [main] demotes the leader and stops its timer, and
    keeps its term and vote; yet the stopped timer is armed again by the
    next vote that the node grants and by the next heartbeat that it
    accepts, so that the crashed node can stand for election again. *)
Theorem crashed_leader_rearmed (rn rn1 : RaftNode) (r : Z) :
  crash rn = Some rn1 ->
  (state rn1 = Follower /\ currentTerm rn1 = currentTerm rn /\
   votedFor rn1 = votedFor rn /\
   exists t0, electionTimer rn1 = Some t0 /\ armed t0 = false) /\
  (forall args,
     rp_VoteGranted (handleRequestVote rn1 args r).2 = true ->
     exists t, electionTimer (handleRequestVote rn1 args r).1 = Some t /\
               armed t = true /\ duration t = electionTimeout r) /\
  (forall args,
     hb_Term args >= currentTerm rn ->
     exists t, electionTimer (handleHeartbeat rn1 args r) = Some t /\
               armed t = true /\ duration t = electionTimeout r).
Proof.
  unfold crash. simpl.
  destruct (electionTimer rn) as [t0|] eqn:Ht0; [|discriminate].
  intros [= <-]. split; [|split].
  - simpl. repeat split; eauto.
  - intros args. unfold handleRequestVote. repeat case_decide; simpl;
      intros Hg; try discriminate; eexists; repeat split.
  - intros args Hge. unfold handleHeartbeat. simpl.
    destruct (decide (hb_Term args >= currentTerm rn)); [|done].
    simpl. eexists. repeat split.
Qed.

Lemma crashed_leader_rearmed_witness :
  (state (set_electionTimer (Some (Timer_Stop (NewTimer 150)))
            (set_state Follower
               (set_state Leader (resetElectionTimer 0 (NewRaftNode 1)))))
     = Follower /\
   currentTerm (set_electionTimer (Some (Timer_Stop (NewTimer 150)))
                  (set_state Follower
                     (set_state Leader (resetElectionTimer 0 (NewRaftNode 1)))))
     = currentTerm (set_state Leader (resetElectionTimer 0 (NewRaftNode 1))) /\
   votedFor (set_electionTimer (Some (Timer_Stop (NewTimer 150)))
               (set_state Follower
                  (set_state Leader (resetElectionTimer 0 (NewRaftNode 1)))))
     = votedFor (set_state Leader (resetElectionTimer 0 (NewRaftNode 1))) /\
   exists t0,
     electionTimer (set_electionTimer (Some (Timer_Stop (NewTimer 150)))
                      (set_state Follower
                         (set_state Leader
                            (resetElectionTimer 0 (NewRaftNode 1)))))
       = Some t0 /\ armed t0 = false) /\
  (forall args,
     rp_VoteGranted
       (handleRequestVote
          (set_electionTimer (Some (Timer_Stop (NewTimer 150)))
             (set_state Follower
                (set_state Leader (resetElectionTimer 0 (NewRaftNode 1)))))
          args 7).2 = true ->
     exists t,
       electionTimer
         (handleRequestVote
            (set_electionTimer (Some (Timer_Stop (NewTimer 150)))
               (set_state Follower
                  (set_state Leader (resetElectionTimer 0 (NewRaftNode 1)))))
            args 7).1 = Some t /\
       armed t = true /\ duration t = electionTimeout 7) /\
  (forall args,
     hb_Term args >=
       currentTerm (set_state Leader (resetElectionTimer 0 (NewRaftNode 1))) ->
     exists t,
       electionTimer
         (handleHeartbeat
            (set_electionTimer (Some (Timer_Stop (NewTimer 150)))
               (set_state Follower
                  (set_state Leader (resetElectionTimer 0 (NewRaftNode 1)))))
            args 7) = Some t /\
       armed t = true /\ duration t = electionTimeout 7).
Proof.
  apply (crashed_leader_rearmed
           (set_state Leader (resetElectionTimer 0 (NewRaftNode 1)))).
  reflexivity.
Defined.

(** * Further properties of the runs *)

(** ** What one event does to the node table *)

Lemma handle_core (h : Handler) (rn0 rn : RaftNode) :
  core rn0 = core rn -> core (handle h rn0) = core (handle h rn).
Proof.
  unfold core. intros [= Hi Ht Hv Hs].
  destruct h as [|args r| |args r]; simpl.
  - unfold startElection. rewrite Hs.
    destruct (state rn) eqn:Hs'; simpl; congruence.
  - unfold handleRequestVote. rewrite Ht. simpl.
    destruct (decide (rv_Term args > currentTerm rn)); simpl.
    + destruct (decide (rv_Term args < rv_Term args)); [lia|]. simpl.
      destruct (resetIfSet_fields r
        (set_votedFor (rv_CandidateID args) (set_votedFor (-1)
           (set_state Follower (set_currentTerm (rv_Term args) rn0)))))
        as (-> & -> & -> & -> & _).
      destruct (resetIfSet_fields r
        (set_votedFor (rv_CandidateID args) (set_votedFor (-1)
           (set_state Follower (set_currentTerm (rv_Term args) rn)))))
        as (-> & -> & -> & -> & _).
      simpl. congruence.
    + rewrite Ht, Hv.
      destruct (decide (rv_Term args < currentTerm rn)); simpl; [congruence|].
      destruct (decide (votedFor rn = -1 \/ votedFor rn = rv_CandidateID args));
        simpl; [|congruence].
      destruct (resetIfSet_fields r (set_votedFor (rv_CandidateID args) rn0))
        as (-> & -> & -> & -> & _).
      destruct (resetIfSet_fields r (set_votedFor (rv_CandidateID args) rn))
        as (-> & -> & -> & -> & _).
      simpl. congruence.
  - unfold receiveVote. rewrite Hs.
    destruct (decide (state rn <> Candidate)); simpl; congruence.
  - unfold handleHeartbeat. rewrite Ht.
    destruct (decide (hb_Term args >= currentTerm rn)); [|congruence].
    destruct (resetIfSet_fields r
      (set_state Follower (set_currentTerm (hb_Term args) rn0)))
      as (-> & -> & -> & -> & _).
    destruct (resetIfSet_fields r
      (set_state Follower (set_currentTerm (hb_Term args) rn)))
      as (-> & -> & -> & -> & _).
    simpl. congruence.
Qed.

Lemma handle_id_peers (h : Handler) (rn : RaftNode) :
  id (handle h rn) = id rn /\ peers (handle h rn) = peers rn.
Proof.
  destruct h as [|args r| |args r]; simpl.
  - unfold startElection. by destruct (state rn).
  - destruct (handleRequestVote_fields rn args r) as (? & ? & _). by split.
  - unfold receiveVote. by case_decide.
  - destruct (handleHeartbeat_fields rn args r) as (? & ? & _). by split.
Qed.

Lemma resetIfSet_timer (r : Z) (rn : RaftNode) (t' : Timer) :
  electionTimer (resetIfSet r rn) = Some t' ->
  (exists t, electionTimer rn = Some t) /\ armed t' = true /\
  duration t' = electionTimeout r.
Proof.
  unfold resetIfSet. destruct (electionTimer rn) as [t|] eqn:Ht; simpl.
  - intros [= <-]. eauto.
  - rewrite Ht. discriminate.
Qed.

(** A message handler leaves the timer as it was or resets it with the
    draw. *)
Lemma handleRequestVote_timer (rn : RaftNode) (args : RequestVoteArgs)
    (r : Z) (t' : Timer) :
  electionTimer (handleRequestVote rn args r).1 = Some t' ->
  electionTimer rn = Some t' \/
  ((exists t, electionTimer rn = Some t) /\ armed t' = true /\
   duration t' = electionTimeout r).
Proof.
  unfold handleRequestVote. repeat case_decide; simpl; auto;
    intros [Ht Hd]%resetIfSet_timer; right; simpl in Ht; auto.
Qed.

Lemma handleHeartbeat_timer (rn : RaftNode) (args : HeartbeatArgs)
    (r : Z) (t' : Timer) :
  electionTimer (handleHeartbeat rn args r) = Some t' ->
  electionTimer rn = Some t' \/
  ((exists t, electionTimer rn = Some t) /\ armed t' = true /\
   duration t' = electionTimeout r).
Proof.
  unfold handleHeartbeat. case_decide; simpl; auto.
  intros [Ht Hd]%resetIfSet_timer. right. simpl in Ht. auto.
Qed.

Lemma startElection_timer_peers (rn : RaftNode) :
  electionTimer (startElection rn).1 = electionTimer rn /\
  voteReqChan (startElection rn).1 = voteReqChan rn /\
  heartbeatChan (startElection rn).1 = heartbeatChan rn.
Proof. unfold startElection. by destruct (state rn). Qed.

(** One event replaces at most one node, and the new node has the peers
    of the old one; its core is the old one or what one handler makes of
    it; its timer, if set, runs as long as the old one or for 150 ms plus
    the draw of the event. *)
Lemma exec_nodes (ev : Event) (c c' : Cluster) :
  exec ev c = Next c' ->
  nodes c' = nodes c \/
  exists a rn rn',
    nodes c !! a = Some rn /\ nodes c' = <[a := rn']> (nodes c) /\
    peers rn' = peers rn /\
    (core rn' = core rn \/ exists h, core rn' = core (handle h rn)) /\
    (forall t', electionTimer rn' = Some t' ->
       (exists t, electionTimer rn = Some t /\ duration t' = duration t) \/
       (exists r, drawOf ev = Some r /\ duration t' = electionTimeout r)).
Proof.
  intros Hexec. destruct ev as [a r|a|a|a r|a r|k]; simpl in Hexec.
  - destruct (nodes c !! a) as [rn|] eqn:Ha; [|discriminate].
    destruct (electionTimer rn) eqn:Ht; [discriminate|].
    injection Hexec as <-. right. exists a, rn, (resetElectionTimer r rn).
    repeat split; auto. simpl. intros t' [= <-]. right. eauto.
  - destruct (nodes c !! a) as [rn|] eqn:Ha; [|discriminate].
    destruct (electionTimer rn) as [t|] eqn:Ht; [|discriminate].
    destruct (armed t); [|discriminate].
    injection Hexec as <-. right.
    exists a, rn, (set_electionTimer (Some (Timer_fire t)) rn).
    repeat split; auto. simpl. intros t' [= <-]. left. eauto.
  - destruct (nodes c !! a) as [rn|] eqn:Ha; [|discriminate].
    destruct (electionTimer rn) as [t|] eqn:Ht; [|discriminate].
    destruct (fired t); [|discriminate].
    pose proof (handle_core HStartElection
                  (set_electionTimer (Some (Timer_receive t)) rn) rn eq_refl)
      as Hcore.
    pose proof (handle_id_peers HStartElection
                  (set_electionTimer (Some (Timer_receive t)) rn))
      as [_ Hpeers].
    pose proof (startElection_timer_peers
                  (set_electionTimer (Some (Timer_receive t)) rn))
      as [Htimer _].
    simpl in Hcore, Hpeers, Htimer.
    destruct (startElection (set_electionTimer (Some (Timer_receive t)) rn))
      as [rn2 req].
    simpl in *. right. exists a, rn, rn2.
    split; [done|]. split.
    { destruct req; by injection Hexec as <-. }
    split; [done|]. split; [right; by exists HStartElection|].
    rewrite Htimer. intros t' [= <-]. left. eauto.
  - destruct (nodes c !! a) as [rn|] eqn:Ha; [|discriminate].
    destruct (electionTimer rn) as [t|] eqn:Ht; [|discriminate].
    destruct (voteReqChan rn) as [|args q] eqn:Hq; [discriminate|].
    pose proof (handle_core (HHandleRequestVote args r)
                  (set_voteReqChan q rn) rn eq_refl) as Hcore.
    pose proof (handle_id_peers (HHandleRequestVote args r)
                  (set_voteReqChan q rn)) as [_ Hpeers].
    pose proof (handleRequestVote_timer (set_voteReqChan q rn) args r)
      as Htimer.
    simpl in Hcore, Hpeers, Htimer.
    destruct (handleRequestVote (set_voteReqChan q rn) args r) as [rn2 reply].
    simpl in *. right. exists a, rn, rn2.
    split; [done|]. split.
    { destruct (rp_VoteGranted reply); by injection Hexec as <-. }
    split; [done|]. split; [right; by exists (HHandleRequestVote args r)|].
    intros t' [Hsame|(_ & _ & Hd)]%Htimer; [left|right]; eauto.
  - destruct (nodes c !! a) as [rn|] eqn:Ha; [|discriminate].
    destruct (electionTimer rn) as [t|] eqn:Ht; [|discriminate].
    destruct (heartbeatChan rn) as [|args q] eqn:Hq; [discriminate|].
    injection Hexec as <-. right.
    exists a, rn, (handleHeartbeat (set_heartbeatChan q rn) args r).
    pose proof (handle_core (HHandleHeartbeat args r)
                  (set_heartbeatChan q rn) rn eq_refl) as Hcore.
    pose proof (handle_id_peers (HHandleHeartbeat args r)
                  (set_heartbeatChan q rn)) as [_ Hpeers].
    simpl in Hcore, Hpeers.
    split; [done|]. split; [done|]. split; [done|].
    split; [right; by exists (HHandleHeartbeat args r)|].
    intros t' [Hsame|(_ & _ & Hd)]%handleHeartbeat_timer; [left|right]; eauto.
  - destruct (spawned c !! k) as [g|] eqn:Hk; [|discriminate].
    destruct g as [p args|v args|a pc]; simpl in Hexec.
    + destruct (nodes c !! p) as [pn|] eqn:Hp; [|discriminate].
      destruct (decide _); [|discriminate].
      injection Hexec as <-. right.
      exists p, pn, (set_voteReqChan (voteReqChan pn ++ [args]) pn).
      repeat split; auto. simpl. intros t' Ht'. left. eauto.
    + destruct (nodes c !! v) as [vn|] eqn:Hv; [|discriminate].
      destruct (getPeer (nodes c) vn (rv_CandidateID args)) as [ca|];
        [|discriminate].
      destruct (nodes c !! ca) as [cn|] eqn:Hc; [|discriminate].
      pose proof (handle_id_peers HReceiveVote cn) as [_ Hpeers].
      assert (electionTimer (receiveVote cn).1 = electionTimer cn) as Htimer.
      { unfold receiveVote. by case_decide. }
      simpl in Hpeers.
      destruct (receiveVote cn) as [cn' started] eqn:Hr.
      simpl in *. right. exists ca, cn, cn'.
      split; [done|]. split.
      { destruct started; by injection Hexec as <-. }
      split; [done|]. split.
      { right. exists HReceiveVote. simpl. by rewrite Hr. }
      rewrite Htimer. intros t' Ht'. left. eauto.
    + destruct pc as [|term [|p rest]].
      * destruct (nodes c !! a) as [rn|]; [|discriminate].
        destruct (heartbeatTerm rn); injection Hexec as <-; by left.
      * injection Hexec as <-. by left.
      * destruct (nodes c !! a) as [rn|]; [|discriminate].
        destruct (nodes c !! p) as [pn|] eqn:Hp; [|discriminate].
        destruct (decide (id pn = id rn)); [injection Hexec as <-; by left|].
        destruct (decide _); [|discriminate].
        injection Hexec as <-. right.
        exists p, pn,
          (set_heartbeatChan
             (heartbeatChan pn ++ [{| hb_Term := term; hb_LeaderID := id rn |}])
             pn).
        repeat split; auto. simpl. intros t' Ht'. left. eauto.
Qed.

Lemma fmap_insert_same {A B : Type} (f : A -> B) (l : list A) (i : nat)
    (x y : A) :
  l !! i = Some x -> f y = f x -> f <$> <[i := y]> l = f <$> l.
Proof.
  intros Hi Hf. rewrite list_fmap_insert. apply list_insert_id.
  rewrite list_lookup_fmap, Hi. simpl. by rewrite Hf.
Qed.

Lemma exec_identity (ev : Event) (c c' : Cluster) :
  exec ev c = Next c' ->
  id <$> nodes c' = id <$> nodes c /\ peers <$> nodes c' = peers <$> nodes c.
Proof.
  intros [->|(a & rn & rn' & Ha & -> & Hp & Hcore & _)]%exec_nodes; [done|].
  assert (id rn' = id rn) as Hid.
  { destruct Hcore as [Hc|[h Hc]]; unfold core in Hc; injection Hc as Hi _ _ _.
    - done.
    - rewrite Hi. apply handle_id_peers. }
  split; by eapply fmap_insert_same.
Qed.

(** X7: no run changes the identity of the cluster: whatever the events,
    the nodes are as many as before and each has the id and the peers it
    started with. *)
Theorem run_keeps_identity (evs : list Event) (c c' : Cluster) :
  run evs c = Next c' ->
  length (nodes c') = length (nodes c) /\
  id <$> nodes c' = id <$> nodes c /\
  peers <$> nodes c' = peers <$> nodes c.
Proof.
  revert c. induction evs as [|ev evs IH]; intros c Hrun; simpl in Hrun.
  - by injection Hrun as <-.
  - destruct (exec ev c) as [c1| |] eqn:Hexec; try discriminate.
    destruct (IH c1 Hrun) as (Hl & Hi & Hp).
    destruct (exec_identity ev c c1 Hexec) as [Hi1 Hp1].
    split; [|split]; [|congruence|congruence].
    rewrite Hl. rewrite <- (length_fmap id (nodes c1)), Hi1.
    apply length_fmap.
Qed.

Lemma run_keeps_identity_witness :
  length (nodes (after run_two_leaders main_cluster)) =
    length (nodes main_cluster) /\
  id <$> nodes (after run_two_leaders main_cluster) = id <$> nodes main_cluster /\
  peers <$> nodes (after run_two_leaders main_cluster) =
    peers <$> nodes main_cluster.
Proof.
  apply (run_keeps_identity run_two_leaders). vm_compute. reflexivity.
Defined.

Lemma handle_self_vote (h : Handler) (rn : RaftNode) :
  id rn <> -1 -> (state rn <> Follower -> votedFor rn = id rn) ->
  state (handle h rn) <> Follower -> votedFor (handle h rn) = id rn.
Proof.
  intros Hid Hself. destruct h as [|args r| |args r]; simpl.
  - unfold startElection. destruct (state rn) eqn:Hs; simpl; auto.
  - unfold handleRequestVote. repeat case_decide; simpl;
      rewrite ?(proj1 (proj2 (proj2 (resetIfSet_fields _ _)))),
              ?(proj1 (proj2 (proj2 (proj2 (resetIfSet_fields _ _)))));
      simpl; intros Hs; try done; auto.
    specialize (Hself Hs). lia.
  - unfold receiveVote. case_decide; simpl; auto.
    intros _. apply Hself. by destruct (state rn).
  - unfold handleHeartbeat. case_decide;
      rewrite ?(proj1 (proj2 (proj2 (resetIfSet_fields _ _)))),
              ?(proj1 (proj2 (proj2 (proj2 (resetIfSet_fields _ _)))));
      simpl; intros Hs; try done; auto.
Qed.

Lemma exec_selfVoted (ev : Event) (c c' : Cluster) :
  exec ev c = Next c' -> selfVoted c -> selfVoted c'.
Proof.
  intros [Hn|(a & rn & rn' & Ha & Hn & _ & Hcore & _)]%exec_nodes Hself b nb;
    rewrite Hn; [apply Hself|].
  destruct (decide (a = b)) as [<-|Hne].
  - rewrite list_lookup_insert_eq by (by eapply lookup_lt_Some).
    intros [= <-]. destruct (Hself a rn Ha) as [Hid Hv].
    destruct Hcore as [Hc|[h Hc]]; unfold core in Hc;
      injection Hc as Hi Ht Hvo Hs; rewrite Hi, Hvo, Hs.
    + done.
    + destruct (handle_id_peers h rn) as [-> _]. split; [done|].
      by apply handle_self_vote.
  - rewrite list_lookup_insert_ne by done. apply Hself.
Qed.

(** X8: a Candidate or a Leader always has its vote on itself.  When no
    node has the id -1 and every Candidate and Leader of the cluster has
    voted for itself, the same holds after any run. *)
Theorem run_keeps_self_vote (evs : list Event) (c c' : Cluster) :
  run evs c = Next c' -> selfVoted c -> selfVoted c'.
Proof.
  revert c. induction evs as [|ev evs IH]; intros c Hrun Hself; simpl in Hrun.
  - by injection Hrun as <-.
  - destruct (exec ev c) as [c1| |] eqn:Hexec; try discriminate.
    apply (IH c1 Hrun). by eapply exec_selfVoted.
Qed.

Lemma run_keeps_self_vote_witness :
  selfVoted (after run_two_leaders main_cluster).
Proof.
  apply (run_keeps_self_vote run_two_leaders main_cluster).
  - vm_compute. reflexivity.
  - intros a rn Ha.
    destruct a as [|[|[|a]]]; vm_compute in Ha; try discriminate;
      injection Ha as <-; simpl; split; (lia || done).
Defined.

Lemma exec_timersInRange (ev : Event) (c c' : Cluster) :
  drawInRange ev -> exec ev c = Next c' ->
  timersInRange c -> timersInRange c'.
Proof.
  intros Hdraw [Hn|(a & rn & rn' & Ha & Hn & _ & _ & Htimer)]%exec_nodes
    Hrange b nb t'; rewrite Hn; [apply Hrange|].
  destruct (decide (a = b)) as [<-|Hne].
  - rewrite list_lookup_insert_eq by (by eapply lookup_lt_Some).
    intros [= <-] Ht'.
    destruct (Htimer t' Ht') as [(t & Ht & ->)|(r & Hr & ->)].
    + by apply (Hrange a rn t).
    + specialize (Hdraw r Hr). unfold electionTimeout. lia.
  - rewrite list_lookup_insert_ne by done. apply Hrange.
Qed.

(** X9: the election timeout is always between 150 and 299 milliseconds:
    when every draw of [rand.Intn(150)] lies in [0, 150), every election
    timer that a run sets or resets runs for at least 150 and less than
    300 milliseconds. *)
Theorem run_keeps_timers_in_range (evs : list Event) (c c' : Cluster) :
  Forall drawInRange evs -> run evs c = Next c' ->
  timersInRange c -> timersInRange c'.
Proof.
  intros Hdraws. revert c.
  induction Hdraws as [|ev evs Hev _ IH]; intros c Hrun Hrange; simpl in Hrun.
  - by injection Hrun as <-.
  - destruct (exec ev c) as [c1| |] eqn:Hexec; try discriminate.
    apply (IH c1 Hrun). by eapply exec_timersInRange.
Qed.

Lemma run_keeps_timers_in_range_witness :
  timersInRange (after run_two_leaders main_cluster).
Proof.
  apply (run_keeps_timers_in_range run_two_leaders main_cluster).
  - cbv [run_two_leaders run_stale_candidate app].
    repeat (apply List.Forall_cons;
            [intros r Hr; simpl in Hr; try discriminate Hr;
             injection Hr as <-; lia|]).
    apply List.Forall_nil.
  - vm_compute. reflexivity.
  - intros a rn t Ha Ht.
    destruct a as [|[|[|a]]]; vm_compute in Ha; try discriminate Ha;
      injection Ha as <-; discriminate Ht.
Defined.

(** ** The wiring of [main] *)

Lemma wired_node (ids : list Z) (c : Cluster) (p : addr) (i : Z) :
  id <$> nodes c = ids ->
  ids !! p = Some i <-> exists pn, nodes c !! p = Some pn /\ id pn = i.
Proof.
  intros <-. rewrite list_lookup_fmap, fmap_Some. split.
  - intros (pn & Hp & ->). eauto.
  - intros (pn & Hp & <-). eauto.
Qed.

Lemma wired_valid (ids : list Z) (c : Cluster) (p : addr) :
  id <$> nodes c = ids -> (p < length ids)%nat -> is_Some (nodes c !! p).
Proof.
  intros <- Hp. apply lookup_lt_is_Some. by rewrite length_fmap in Hp.
Qed.

Lemma wired_update (ids : list Z) (c c' : Cluster) (a : addr)
    (rn rn' : RaftNode) :
  wired ids c -> nodes c !! a = Some rn ->
  nodes c' = <[a := rn']> (nodes c) ->
  id rn' = id rn -> peers rn' = peers rn ->
  (forall m, m ∈ voteReqChan rn' ->
     m ∈ voteReqChan rn \/
     (rv_CandidateID m ∈ ids /\ rv_CandidateID m <> id rn)) ->
  (forall g, g ∈ spawned c' -> g ∈ spawned c \/ goodGoroutine ids g) ->
  wired ids c'.
Proof.
  intros Hw Ha Hn Hid Hpeers Hchan Hsp. split.
  - rewrite Hn. etrans; [by eapply fmap_insert_same|].
    apply (wired_ids ids c Hw).
  - intros b nb. rewrite Hn. destruct (decide (a = b)) as [<-|Hne].
    + rewrite list_lookup_insert_eq by (by eapply lookup_lt_Some).
      intros [= <-]. rewrite Hpeers. by apply (wired_peers ids c Hw a).
    + rewrite list_lookup_insert_ne by done. apply (wired_peers ids c Hw).
  - intros b nb args. rewrite Hn. destruct (decide (a = b)) as [<-|Hne].
    + rewrite list_lookup_insert_eq by (by eapply lookup_lt_Some).
      intros [= <-] [Hold|Hnew]%Hchan.
      * rewrite Hid. by apply (wired_chan ids c Hw a).
      * by rewrite Hid.
    + rewrite list_lookup_insert_ne by done. apply (wired_chan ids c Hw).
  - intros g [Hold|Hnew]%Hsp; [by apply (wired_spawned ids c Hw) | done].
Qed.

Lemma wired_same (ids : list Z) (c c' : Cluster) :
  wired ids c -> nodes c' = nodes c ->
  (forall g, g ∈ spawned c' -> g ∈ spawned c \/ goodGoroutine ids g) ->
  wired ids c'.
Proof.
  intros Hw Hn Hsp. split; rewrite ?Hn.
  - apply (wired_ids ids c Hw).
  - apply (wired_peers ids c Hw).
  - apply (wired_chan ids c Hw).
  - intros g [Hold|Hnew]%Hsp; [by apply (wired_spawned ids c Hw) | done].
Qed.

Lemma findPeer_seq (h : list RaftNode) (i : Z) (b : addr) (nb : RaftNode) :
  h !! b = Some nb -> id nb = i ->
  findPeer h (seq 0 (length h)) i <> None.
Proof.
  intros Hb Hi Hnone. rewrite findPeer_None in Hnone.
  apply (Hnone b nb); [|done|done].
  apply elem_of_seq. split; [lia|]. simpl. by eapply lookup_lt_Some.
Qed.

(** In a cluster wired as [main] wires it no event dereferences nil, and
    the cluster that the event leaves is wired in the same way. *)
Lemma wired_step (ids : list Z) (ev : Event) (c : Cluster) :
  wired ids c ->
  match exec ev c with
  | Next c' => wired ids c'
  | Blocked => True
  | Panic => False
  end.
Proof.
  intros Hw. pose proof (wired_ids ids c Hw) as Hids.
  assert (length ids = length (nodes c)) as Hlen
    by (by rewrite <- Hids, length_fmap).
  destruct ev as [a r|a|a|a r|a r|k]; simpl.
  - destruct (nodes c !! a) as [rn|] eqn:Ha; [|done].
    destruct (electionTimer rn); [done|].
    apply (wired_update ids c _ a rn (resetElectionTimer r rn) Hw Ha);
      simpl; auto.
  - destruct (nodes c !! a) as [rn|] eqn:Ha; [|done].
    destruct (electionTimer rn) as [t|]; [|done].
    destruct (armed t); [|done].
    apply (wired_update ids c _ a rn
             (set_electionTimer (Some (Timer_fire t)) rn) Hw Ha);
      simpl; auto.
  - destruct (nodes c !! a) as [rn|] eqn:Ha; [|done].
    destruct (electionTimer rn) as [t|]; [|done].
    destruct (fired t); [|done].
    assert (forall rn' args g,
              id rn' = id rn -> peers rn' = peers rn ->
              rv_CandidateID args = id rn ->
              g ∈ spawned c ++ voteRequests (<[a := rn']> (nodes c)) rn' args ->
              g ∈ spawned c \/ goodGoroutine ids g) as Hnew.
    { intros rn' args g Hid Hpeers Hcid [Hold|Hin]%elem_of_app; [by left|].
      right. unfold voteRequests in Hin.
      apply list_elem_of_fmap in Hin as (p & -> & Hp).
      apply others_spec in Hp as (_ & n & Hn & Hne). simpl. split.
      - rewrite Hcid. apply (list_elem_of_lookup_2 ids a).
        apply (wired_node ids c a (id rn) Hids). eauto.
      - exists (id n). split; [|congruence].
        assert (id <$> nodes (set_node a rn' c) = ids) as Hids'.
        { simpl. etrans; [by eapply fmap_insert_same | done]. }
        apply (wired_node ids (set_node a rn' c) p (id n) Hids'). eauto. }
    unfold startElection. simpl. destruct (state rn) eqn:Hs; simpl.
    + eapply (wired_update ids c _ a rn _ Hw Ha); simpl; try reflexivity; auto.
      intros g Hg. by eapply Hnew; [| | |exact Hg].
    + eapply (wired_update ids c _ a rn _ Hw Ha); simpl; try reflexivity; auto.
      intros g Hg. by eapply Hnew; [| | |exact Hg].
    + apply (wired_update ids c _ a rn
               (set_electionTimer (Some (Timer_receive t)) rn) Hw Ha);
        simpl; auto.
  - destruct (nodes c !! a) as [rn|] eqn:Ha; [|done].
    destruct (electionTimer rn) as [t|]; [|done].
    destruct (voteReqChan rn) as [|args q] eqn:Hq; [done|].
    pose proof (handleRequestVote_fields (set_voteReqChan q rn) args r)
      as (Hid & Hpeers & Hchan).
    destruct (handleRequestVote (set_voteReqChan q rn) args r) as [rn2 reply].
    simpl in *.
    assert (forall m, m ∈ voteReqChan rn2 ->
              m ∈ voteReqChan rn \/
              (rv_CandidateID m ∈ ids /\ rv_CandidateID m <> id rn)) as Hsub.
    { intros m. rewrite Hchan, Hq, elem_of_cons. auto. }
    destruct (rp_VoteGranted reply).
    + apply (wired_update ids c _ a rn rn2 Hw Ha); simpl; auto.
      intros g [Hold|Hnew%list_elem_of_singleton]%elem_of_app; [by left|].
      subst g. right. simpl. split.
      * apply (wired_chan ids c Hw a rn args Ha).
        rewrite Hq. apply elem_of_cons. by left.
      * rewrite Hlen. by eapply lookup_lt_Some.
    + apply (wired_update ids c _ a rn rn2 Hw Ha); simpl; auto.
  - destruct (nodes c !! a) as [rn|] eqn:Ha; [|done].
    destruct (electionTimer rn) as [t|]; [|done].
    destruct (heartbeatChan rn) as [|args q] eqn:Hq; [done|].
    pose proof (handleHeartbeat_fields (set_heartbeatChan q rn) args r)
      as (Hid & Hpeers & Hchan & _).
    apply (wired_update ids c _ a rn
             (handleHeartbeat (set_heartbeatChan q rn) args r) Hw Ha);
      simpl in *; auto.
    intros m. rewrite Hchan. auto.
  - destruct (spawned c !! k) as [g|] eqn:Hk; [|done].
    pose proof (wired_spawned ids c Hw g (list_elem_of_lookup_2 _ _ _ Hk))
      as Hg.
    assert (forall g', g' ∈ delete k (spawned c) ->
              g' ∈ spawned c \/ goodGoroutine ids g') as Hdel.
    { intros g' Hin. left. by eapply list_elem_of_delete_inv. }
    assert (forall g0 g', goodGoroutine ids g0 ->
              g' ∈ <[k := g0]> (spawned c) ->
              g' ∈ spawned c \/ goodGoroutine ids g') as Hres.
    { intros g0 g' Hg0 [->|Hin]%elem_of_insert_inv; auto. }
    destruct g as [p args|v args|a pc]; simpl in Hg |- *.
    + destruct Hg as (Hcid & i & Hi & Hne).
      apply (wired_node ids c p i Hids) in Hi as (pn & Hp & <-).
      rewrite Hp. destruct (decide _); [|done].
      apply (wired_update ids c _ p pn
               (set_voteReqChan (voteReqChan pn ++ [args]) pn) Hw Hp);
        simpl; auto.
      intros m [Hm|Hm%list_elem_of_singleton]%elem_of_app; [by left|].
      subst m. by right.
    + destruct Hg as (Hcid & Hv).
      destruct (wired_valid ids c v Hids Hv) as [vn Hvn]. rewrite Hvn.
      apply list_elem_of_lookup in Hcid as [b Hb].
      apply (wired_node ids c b _ Hids) in Hb as (nb & Hnb & Hidb).
      pose proof (findPeer_seq (nodes c) _ b nb Hnb Hidb) as Hfound.
      unfold getPeer. rewrite (wired_peers ids c Hw v vn Hvn), Hlen.
      destruct (findPeer (nodes c) (seq 0 (length (nodes c)))
                  (rv_CandidateID args)) as [ca|] eqn:Hfp; [|done].
      apply findPeer_Some in Hfp as (_ & cn & Hcn & _). rewrite Hcn.
      unfold receiveVote. destruct (decide (state cn <> Candidate)).
      * apply (wired_update ids c _ ca cn cn Hw Hcn); simpl; auto.
      * apply (wired_update ids c _ ca cn (set_state Leader cn) Hw Hcn);
          simpl; auto.
        intros g' [Hin|Hnew%list_elem_of_singleton]%elem_of_app; [auto|].
        subst g'. right. simpl. rewrite Hlen. by eapply lookup_lt_Some.
    + destruct pc as [|term [|p rest]]; simpl in Hg.
      * destruct (wired_valid ids c a Hids Hg) as [rn Hrn]. rewrite Hrn.
        destruct (heartbeatTerm rn) as [term|].
        -- eapply (wired_same ids c); [exact Hw | reflexivity | simpl].
           intros g'. apply Hres. simpl. split; [done|].
           intros p. rewrite (wired_peers ids c Hw a rn Hrn), elem_of_seq. lia.
        -- by apply (wired_same ids c (finish k c) Hw eq_refl).
      * eapply (wired_same ids c); [exact Hw | reflexivity | simpl].
        intros g'. apply Hres. simpl. by destruct Hg.
      * destruct Hg as [Hga Hrest].
        destruct (wired_valid ids c a Hids Hga) as [rn Hrn]. rewrite Hrn.
        assert (p < length ids)%nat as Hp
          by (apply Hrest, elem_of_cons; by left).
        destruct (wired_valid ids c p Hids Hp) as [pn Hpn]. rewrite Hpn.
        assert (goodGoroutine ids (GoSendHeartbeats a (HBSend term rest)))
          as Hgood.
        { simpl. split; [done|]. intros q Hq. apply Hrest, elem_of_cons. auto. }
        destruct (decide (id pn = id rn)).
        -- eapply (wired_same ids c); [exact Hw | reflexivity | simpl].
           intros g'. by apply Hres.
        -- destruct (decide _); [|done].
           apply (wired_update ids c _ p pn
                    (set_heartbeatChan
                       (heartbeatChan pn ++
                          [{| hb_Term := term; hb_LeaderID := id rn |}]) pn)
                    Hw Hpn); simpl; auto.
           intros g'. by apply Hres.
Qed.

Lemma mesh_wired (ids : list Z) : wired ids (mesh ids).
Proof.
  split.
  - unfold mesh. simpl. rewrite <- list_fmap_compose.
    rewrite <- (list_fmap_id ids) at 2. by apply list_fmap_ext.
  - intros a rn (i & _ & ->)%mesh_lookup. done.
  - intros a rn args (i & _ & ->)%mesh_lookup Hin. simpl in Hin.
    by apply elem_of_nil in Hin.
  - intros g Hin. simpl in Hin. by apply elem_of_nil in Hin.
Qed.

Lemma run_wired (ids : list Z) (evs : list Event) (c : Cluster) :
  wired ids c ->
  match run evs c with
  | Next c' => wired ids c'
  | Blocked => True
  | Panic => False
  end.
Proof.
  revert c. induction evs as [|ev evs IH]; intros c Hw; simpl; [done|].
  pose proof (wired_step ids ev c Hw) as Hstep.
  destruct (exec ev c) as [c1| |]; [by apply IH | done | done].
Qed.

(** X10: the program never dereferences a nil pointer: from the cluster
    that [main] wires, whatever the ids of the nodes and however the
    events interleave, no run ends in a panic. *)
Theorem run_never_panics (ids : list Z) (evs : list Event) :
  run evs (mesh ids) <> Panic.
Proof.
  pose proof (run_wired ids evs (mesh ids) (mesh_wired ids)) as H.
  intros Hp. by rewrite Hp in H.
Qed.

(** X11: in the cluster that [main] wires, a RequestVote that waits in
    the channel of a node names a node of the cluster as candidate and
    never carries the id of the node it waits at: no node is asked to
    vote on its own candidacy. *)
Theorem no_request_from_self (ids : list Z) (evs : list Event) (c : Cluster)
    (a : addr) (rn : RaftNode) (args : RequestVoteArgs) :
  run evs (mesh ids) = Next c ->
  nodes c !! a = Some rn -> args ∈ voteReqChan rn ->
  rv_CandidateID args <> id rn /\
  exists b nb, nodes c !! b = Some nb /\ id nb = rv_CandidateID args.
Proof.
  intros Hrun Ha Hin.
  pose proof (run_wired ids evs (mesh ids) (mesh_wired ids)) as Hw.
  rewrite Hrun in Hw.
  destruct (wired_chan ids c Hw a rn args Ha Hin) as [Hcid Hne].
  split; [done|].
  apply list_elem_of_lookup in Hcid as [b Hb].
  apply (wired_node ids c b _ (wired_ids ids c Hw)) in Hb as (nb & Hnb & Hid).
  eauto.
Qed.

Lemma no_request_from_self_witness :
  rv_CandidateID {| rv_Term := 1; rv_CandidateID := 1 |} <>
    id (node_at (after run_request_pending main_cluster) 1) /\
  exists b nb,
    nodes (after run_request_pending main_cluster) !! b = Some nb /\
    id nb = rv_CandidateID {| rv_Term := 1; rv_CandidateID := 1 |}.
Proof.
  apply (no_request_from_self [1; 2; 3] run_request_pending
           (after run_request_pending main_cluster) 1).
  - vm_compute. reflexivity.
  - vm_compute. reflexivity.
  - vm_compute. apply elem_of_cons. by left.
Defined.

(** ** Split votes *)

(** X12: a cluster in which nothing is in flight and no election timer
    will expire is dead: no event can happen, so the cluster never
    changes again.  [startElection] does not re-arm the timer, so a vote
    split among all nodes ends in such a cluster, with no Leader. *)
Theorem quiescent_is_stuck (c : Cluster) :
  quiescent c ->
  (forall ev, exec ev c = Blocked) /\
  (forall evs c', run evs c = Next c' -> c' = c).
Proof.
  intros [Hsp Hn].
  assert (forall ev, exec ev c = Blocked) as Hstuck.
  { intros [a r|a|a|a r|a r|k]; simpl.
    - destruct (nodes c !! a) as [rn|] eqn:Ha; [|done].
      destruct (Hn a rn Ha) as (_ & _ & t & -> & _). done.
    - destruct (nodes c !! a) as [rn|] eqn:Ha; [|done].
      destruct (Hn a rn Ha) as (_ & _ & t & -> & -> & _). done.
    - destruct (nodes c !! a) as [rn|] eqn:Ha; [|done].
      destruct (Hn a rn Ha) as (_ & _ & t & -> & _ & ->). done.
    - destruct (nodes c !! a) as [rn|] eqn:Ha; [|done].
      destruct (Hn a rn Ha) as (-> & _ & t & -> & _). done.
    - destruct (nodes c !! a) as [rn|] eqn:Ha; [|done].
      destruct (Hn a rn Ha) as (_ & -> & t & -> & _). done.
    - by rewrite Hsp. }
  split; [done|].
  intros [|ev evs] c'; simpl.
  - by intros [= <-].
  - by rewrite Hstuck.
Qed.

Lemma quiescent_is_stuck_witness :
  (forall ev, exec ev (after run_split_vote main_cluster) = Blocked) /\
  (forall evs c',
     run evs (after run_split_vote main_cluster) = Next c' ->
     c' = after run_split_vote main_cluster).
Proof.
  apply quiescent_is_stuck. split.
  - vm_compute. reflexivity.
  - intros a rn Ha.
    destruct a as [|[|[|a]]]; vm_compute in Ha; try discriminate Ha;
      injection Ha as <-; simpl; eauto 10.
Defined.

(** ** Peers in the wiring of [main] *)

Lemma lookup_fmap_id (h : list RaftNode) (p : nat) (n : RaftNode) :
  h !! p = Some n -> (id <$> h) !! p = Some (id n).
Proof. intros H. by rewrite list_lookup_fmap, H. Qed.

(** X13: with distinct ids and every node's [peers] the whole slice, as
    [main] wires them, [getPeer] on the id of a node returns that very
    node, whoever asks. *)
Theorem getPeer_finds_node (c : Cluster) (vn rn : RaftNode) (a : addr) :
  NoDup (id <$> nodes c) ->
  peers vn = seq 0 (length (nodes c)) ->
  nodes c !! a = Some rn ->
  getPeer (nodes c) vn (id rn) = Some a.
Proof.
  intros Hnd Hpeers Ha. unfold getPeer. rewrite Hpeers.
  pose proof (findPeer_seq (nodes c) (id rn) a rn Ha eq_refl) as Hfound.
  destruct (findPeer (nodes c) (seq 0 (length (nodes c))) (id rn))
    as [p|] eqn:Hfp; [|done].
  apply findPeer_Some in Hfp as (_ & pn & Hp & Hid).
  f_equal. apply (NoDup_lookup (id <$> nodes c) p a (id rn) Hnd).
  - rewrite <- Hid. by apply lookup_fmap_id.
  - by apply lookup_fmap_id.
Qed.

Lemma getPeer_finds_node_witness :
  getPeer (nodes main_cluster) (node_at main_cluster 2)
    (id (node_at main_cluster 1)) = Some 1%nat.
Proof.
  apply getPeer_finds_node.
  - apply (bool_decide_unpack _). vm_compute. exact I.
  - vm_compute. reflexivity.
  - vm_compute. reflexivity.
Defined.

Lemma others_mesh (h : list RaftNode) (a : addr) (rn : RaftNode)
    (ps : list addr) :
  h !! a = Some rn -> NoDup (id <$> h) ->
  (forall p, p ∈ ps -> (p < length h)%nat) ->
  others h (id rn) ps = filter (fun p => p <> a) ps.
Proof.
  intros Ha Hnd. induction ps as [|q ps IH]; intros Hps; simpl; [done|].
  assert (q < length h)%nat as Hq by (apply Hps, elem_of_cons; by left).
  destruct (h !! q) as [n|] eqn:Hn;
    [|apply lookup_ge_None in Hn; unfold addr in *; lia].
  rewrite IH by (intros p Hp; apply Hps, elem_of_cons; by right).
  destruct (decide (id n = id rn)) as [He|Hne].
  - assert (q = a) as ->.
    { apply (NoDup_lookup (id <$> h) q a (id rn) Hnd).
      - rewrite <- He. by apply lookup_fmap_id.
      - by apply lookup_fmap_id. }
    rewrite filter_cons_False; [done|]. by intros Hc.
  - rewrite filter_cons_True; [done|]. intros ->. congruence.
Qed.

(** X14: in the wiring of [main] with distinct ids, a candidacy starts
    exactly one RequestVote for each node other than the candidate, in
    the order of the slice, and none for the candidate itself. *)
Theorem candidacy_asks_every_other_node (c : Cluster) (a : addr)
    (rn : RaftNode) (t : Timer) :
  nodes c !! a = Some rn -> state rn <> Leader ->
  electionTimer rn = Some t -> fired t = true ->
  NoDup (id <$> nodes c) -> peers rn = seq 0 (length (nodes c)) ->
  exists c',
    exec (EvTimeout a) c = Next c' /\
    spawned c' =
      spawned c ++
      ((fun p => GoSendVoteReq p {| rv_Term := incr (currentTerm rn);
                                    rv_CandidateID := id rn |})
         <$> filter (fun p => p <> a) (seq 0 (length (nodes c)))).
Proof.
  intros Ha Hs Ht Hf Hnd Hpeers. simpl. rewrite Ha, Ht, Hf.
  unfold startElection. simpl.
  set (rn' := set_votedFor (id rn)
                (set_currentTerm (incr (currentTerm rn))
                   (set_state Candidate
                      (set_electionTimer (Some (Timer_receive t)) rn)))).
  assert (others (<[a := rn']> (nodes c)) (id rn') (peers rn')
          = filter (fun p => p <> a) (seq 0 (length (nodes c)))) as Hothers.
  { simpl. rewrite Hpeers.
    apply (others_mesh (<[a := rn']> (nodes c)) a rn').
    - apply list_lookup_insert_eq. by eapply lookup_lt_Some.
    - assert (id <$> <[a := rn']> (nodes c) = id <$> nodes c) as ->
        by (by eapply fmap_insert_same).
      done.
    - intros p [_ Hp]%elem_of_seq. rewrite length_insert. simpl in Hp. lia. }
  destruct (state rn) eqn:Hst; [| |congruence]; simpl;
    eexists; (split; [reflexivity|]); simpl;
    unfold voteRequests; fold rn'; by rewrite Hothers.
Qed.

Lemma candidacy_asks_every_other_node_witness :
  exists c',
    exec (EvTimeout 0) (after run_timer_expired main_cluster) = Next c' /\
    spawned c' =
      spawned (after run_timer_expired main_cluster) ++
      ((fun p =>
          GoSendVoteReq p
            {| rv_Term :=
                 incr (currentTerm
                         (node_at (after run_timer_expired main_cluster) 0));
               rv_CandidateID :=
                 id (node_at (after run_timer_expired main_cluster) 0) |})
         <$> filter (fun p => p <> 0%nat)
               (seq 0 (length (nodes (after run_timer_expired main_cluster))))).
Proof.
  apply (candidacy_asks_every_other_node
           (after run_timer_expired main_cluster) 0
           (node_at (after run_timer_expired main_cluster) 0)
           (Timer_fire (NewTimer (electionTimeout 0)))).
  - vm_compute. reflexivity.
  - vm_compute. discriminate.
  - vm_compute. reflexivity.
  - vm_compute. reflexivity.
  - apply (bool_decide_unpack _). vm_compute. exact I.
  - vm_compute. reflexivity.
Defined.

(** ** One round of heartbeats *)

Lemma others_ids (h h' : list RaftNode) (self : Z) (ps : list addr) :
  id <$> h = id <$> h' -> others h self ps = others h' self ps.
Proof.
  intros Hids. induction ps as [|p ps IH]; simpl; [done|].
  assert (id <$> (h !! p) = id <$> (h' !! p)) as Hp.
  { pose proof (f_equal (fun l => l !! (p : nat)) Hids) as Hl. simpl in Hl.
    by rewrite !list_lookup_fmap in Hl. }
  rewrite IH.
  destruct (h !! p) as [n|], (h' !! p) as [n'|]; simpl in Hp; try done.
  injection Hp as ->. done.
Qed.

Lemma heartbeat_sends (ps : list addr) :
  forall (c : Cluster) (k : nat) (a : addr) (rn : RaftNode) (term : Z),
  nodes c !! a = Some rn ->
  spawned c !! k = Some (GoSendHeartbeats a (HBSend term ps)) ->
  (forall p, p ∈ ps -> (p < length (nodes c))%nat) ->
  (forall p pn, nodes c !! p = Some pn ->
                (length (heartbeatChan pn) + length ps <= chanCap)%nat) ->
  run (replicate (length ps) (EvGo k)) c =
    Next {| nodes :=
              foldl deliver (nodes c)
                ((fun p => (p, {| hb_Term := term; hb_LeaderID := id rn |}))
                   <$> others (nodes c) (id rn) ps);
            spawned := <[k := GoSendHeartbeats a (HBSend term [])]> (spawned c) |}.
Proof.
  induction ps as [|p rest IH]; intros c k a rn term Ha Hk Hps Hcap.
  - simpl. rewrite list_insert_id by done. by destruct c.
  - assert (p < length (nodes c))%nat as Hp
      by (apply Hps, elem_of_cons; by left).
    cbn [length replicate run exec]. rewrite Hk.
    cbn [runGoroutine others]. rewrite Ha.
    destruct (nodes c !! p) as [pn|] eqn:Hpn;
      [|apply lookup_ge_None in Hpn; unfold addr in *; lia].
    pose proof (Hcap p pn Hpn) as Hlen. cbn [length] in Hlen.
    destruct (decide (id pn = id rn)) as [He|Hne].
    + rewrite (IH (resume k (GoSendHeartbeats a (HBSend term rest)) c)
                 k a rn term); simpl.
      * by rewrite list_insert_insert_eq.
      * done.
      * apply list_lookup_insert_eq. by eapply lookup_lt_Some.
      * intros q Hq. apply Hps, elem_of_cons. by right.
      * intros q qn Hq. specialize (Hcap q qn Hq). simpl in Hcap. lia.
    + destruct (decide (length (heartbeatChan pn) < chanCap)%nat); [|lia].
      assert (p <> a) as Hpa by (intros ->; congruence).
      set (pn' := set_heartbeatChan _ pn).
      rewrite (IH (resume k (GoSendHeartbeats a (HBSend term rest))
                     (set_node p pn' c)) k a rn term); simpl.
      * rewrite list_insert_insert_eq.
        assert (deliver (nodes c)
                  (p, {| hb_Term := term; hb_LeaderID := id rn |})
                = <[p := pn']> (nodes c)) as ->.
        { unfold deliver. cbn [fst snd].
          destruct (nodes c !! p) as [pn0|] eqn:Hpn0; [|done].
          by injection Hpn as ->. }
        rewrite (others_ids (<[p := pn']> (nodes c)) (nodes c)); [done|].
        by eapply fmap_insert_same.
      * rewrite list_lookup_insert_ne by done. done.
      * apply list_lookup_insert_eq. by eapply lookup_lt_Some.
      * intros q Hq. rewrite length_insert. apply Hps, elem_of_cons.
        by right.
      * intros q qn Hq. destruct (decide (q = p)) as [->|Hqp].
        -- rewrite list_lookup_insert_eq in Hq by done.
           injection Hq as <-. simpl. rewrite length_app. simpl. lia.
        -- rewrite list_lookup_insert_ne in Hq by done.
           specialize (Hcap q qn Hq). simpl in Hcap. lia.
Qed.

Lemma run_app (evs evs' : list Event) (c c' : Cluster) :
  run evs c = Next c' -> run (evs ++ evs') c = run evs' c'.
Proof.
  revert c. induction evs as [|ev evs IH]; intros c; simpl.
  - by intros [= ->].
  - destruct (exec ev c) as [c1| |]; [apply IH|done|done].
Qed.

(** X15: one round of the heartbeat loop.  When the goroutine of
    [sendHeartbeats] stands at the head of the loop of a Leader and runs
    undisturbed while the channels have room, it puts one heartbeat with
    the term it read and the id of the Leader into the channel of every
    peer whose id differs from the Leader's, in the order of [peers],
    changes nothing else, and is back at the head of the loop. *)
Theorem heartbeat_round_delivers_batch (c : Cluster) (k : nat) (a : addr)
    (rn : RaftNode) :
  nodes c !! a = Some rn -> state rn = Leader ->
  spawned c !! k = Some (GoSendHeartbeats a HBCheck) ->
  (forall p, p ∈ peers rn -> (p < length (nodes c))%nat) ->
  (forall p pn, nodes c !! p = Some pn ->
     (length (heartbeatChan pn) + length (peers rn) <= chanCap)%nat) ->
  run (replicate (S (S (length (peers rn)))) (EvGo k)) c =
    Next {| nodes := foldl deliver (nodes c)
                       (heartbeatBatch (nodes c) rn (currentTerm rn));
            spawned := spawned c |}.
Proof.
  intros Ha Hs Hk Hps Hcap.
  replace (S (S (length (peers rn))))
    with (1 + (length (peers rn) + 1))%nat by lia.
  rewrite !replicate_add. cbn [replicate app run].
  destruct (broadcaster_check c k a rn Hk Ha) as [_ ->]; [|done].
  set (c1 := resume k _ c).
  rewrite (run_app _ [EvGo k] c1 _
             (heartbeat_sends (peers rn) c1 k a rn (currentTerm rn)
                Ha (list_lookup_insert_eq _ _ _ (lookup_lt_Some _ _ _ Hk))
                Hps Hcap)).
  cbn [run exec spawned]. rewrite list_lookup_insert_eq.
  2:{ subst c1. simpl. rewrite length_insert. by eapply lookup_lt_Some. }
  subst c1.
  cbn [runGoroutine]. unfold resume. cbn [nodes spawned].
  rewrite !list_insert_insert_eq, list_insert_id by done. done.
Qed.

Lemma heartbeat_round_delivers_batch_witness :
  run (replicate
         (S (S (length (peers (node_at
                                 (after run_first_election main_cluster) 0)))))
         (EvGo 1))
      (after run_first_election main_cluster) =
    Next {| nodes :=
              foldl deliver (nodes (after run_first_election main_cluster))
                (heartbeatBatch (nodes (after run_first_election main_cluster))
                   (node_at (after run_first_election main_cluster) 0)
                   (currentTerm
                      (node_at (after run_first_election main_cluster) 0)));
            spawned := spawned (after run_first_election main_cluster) |}.
Proof.
  apply (heartbeat_round_delivers_batch
           (after run_first_election main_cluster) 1 0
           (node_at (after run_first_election main_cluster) 0)).
  - vm_compute. reflexivity.
  - vm_compute. reflexivity.
  - vm_compute. reflexivity.
  - intros p Hp. change (p ∈ seq 0 3) in Hp. apply elem_of_seq in Hp.
    vm_compute. lia.
  - intros p pn Hp.
    destruct p as [|[|[|p]]]; vm_compute in Hp; try discriminate Hp;
      injection Hp as <-; vm_compute; lia.
Defined.

(** ** Terms along a run *)

Lemma timeouts_nonneg (evs : list Event) : 0 <= timeouts evs.
Proof. induction evs as [|[] evs IH]; simpl; lia. Qed.

Lemma timeouts_app (evs evs' : list Event) :
  timeouts (evs ++ evs') = timeouts evs + timeouts evs'.
Proof. induction evs as [|[] evs IH]; simpl; lia. Qed.

Lemma terms_mono (n m : Z) (c : Cluster) :
  termsWithin n c -> n <= m -> termsWithin m c.
Proof.
  intros [H1 H2 H3 H4] Hle. split.
  - intros a rn Ha. specialize (H1 a rn Ha). lia.
  - intros a rn x Ha Hx. specialize (H2 a rn x Ha Hx). lia.
  - intros a rn x Ha Hx. specialize (H3 a rn x Ha Hx). lia.
  - intros g t Hg Ht. specialize (H4 g t Hg Ht). lia.
Qed.

Lemma terms_update (n : Z) (c c' : Cluster) (a : addr) (rn rn' : RaftNode) :
  termsWithin n c -> nodes c !! a = Some rn ->
  nodes c' = <[a := rn']> (nodes c) ->
  0 <= currentTerm rn' <= n ->
  (forall m, m ∈ voteReqChan rn' ->
     m ∈ voteReqChan rn \/ 0 <= rv_Term m <= n) ->
  (forall m, m ∈ heartbeatChan rn' ->
     m ∈ heartbeatChan rn \/ 0 <= hb_Term m <= n) ->
  (forall g t, g ∈ spawned c' -> termOf g = Some t ->
     g ∈ spawned c \/ 0 <= t <= n) ->
  termsWithin n c'.
Proof.
  intros [H1 H2 H3 H4] Ha Hn Hterm Hreq Hhb Hgo. split.
  - intros b nb. rewrite Hn. destruct (decide (a = b)) as [<-|Hne].
    + rewrite list_lookup_insert_eq by (by eapply lookup_lt_Some).
      by intros [= <-].
    + rewrite list_lookup_insert_ne by done. apply H1.
  - intros b nb m. rewrite Hn. destruct (decide (a = b)) as [<-|Hne].
    + rewrite list_lookup_insert_eq by (by eapply lookup_lt_Some).
      intros [= <-] [Hold|Hnew]%Hreq; [by apply (H2 a rn)|done].
    + rewrite list_lookup_insert_ne by done. apply H2.
  - intros b nb m. rewrite Hn. destruct (decide (a = b)) as [<-|Hne].
    + rewrite list_lookup_insert_eq by (by eapply lookup_lt_Some).
      intros [= <-] [Hold|Hnew]%Hhb; [by apply (H3 a rn)|done].
    + rewrite list_lookup_insert_ne by done. apply H3.
  - intros g t Hg Ht. destruct (Hgo g t Hg Ht) as [Hold|Hnew]; [|done].
    by apply (H4 g).
Qed.

Lemma terms_same (n : Z) (c c' : Cluster) :
  termsWithin n c -> nodes c' = nodes c ->
  (forall g t, g ∈ spawned c' -> termOf g = Some t ->
     g ∈ spawned c \/ 0 <= t <= n) ->
  termsWithin n c'.
Proof.
  intros [H1 H2 H3 H4] Hn Hgo. split; rewrite ?Hn; try done.
  intros g t Hg Ht. destruct (Hgo g t Hg Ht) as [Hold|Hnew]; [|done].
  by apply (H4 g).
Qed.

Lemma handleRequestVote_term (rn : RaftNode) (args : RequestVoteArgs)
    (r : Z) :
  currentTerm (handleRequestVote rn args r).1 =
    Z.max (currentTerm rn) (rv_Term args) /\
  heartbeatChan (handleRequestVote rn args r).1 = heartbeatChan rn.
Proof.
  unfold handleRequestVote, resetIfSet.
  repeat case_decide; simpl; try (split; [lia|done]);
    destruct (electionTimer rn); simpl; split; try lia; done.
Qed.

Lemma handleHeartbeat_term (rn : RaftNode) (args : HeartbeatArgs) (r : Z) :
  currentTerm (handleHeartbeat rn args r) =
    Z.max (currentTerm rn) (hb_Term args) /\
  heartbeatChan (handleHeartbeat rn args r) = heartbeatChan rn.
Proof.
  unfold handleHeartbeat, resetIfSet.
  case_decide; simpl; try (split; [lia|done]);
    destruct (electionTimer rn); simpl; split; try lia; done.
Qed.

Lemma terms_step (n : Z) (ev : Event) (c c' : Cluster) :
  termsWithin n c -> n + timeouts [ev] <= MaxInt -> exec ev c = Next c' ->
  termsWithin (n + timeouts [ev]) c'.
Proof.
  intros Hw Hmax Hexec.
  destruct ev as [a r|a|a|a r|a r|k]; simpl in Hexec, Hmax |- *;
    rewrite ?Z.add_0_r in *.
  - destruct (nodes c !! a) as [rn|] eqn:Ha; [|discriminate].
    destruct (electionTimer rn); [discriminate|]. injection Hexec as <-.
    apply (terms_update n c _ a rn (resetElectionTimer r rn) Hw Ha);
      simpl; auto. apply (tw_node n c Hw a rn Ha).
  - destruct (nodes c !! a) as [rn|] eqn:Ha; [|discriminate].
    destruct (electionTimer rn) as [t|]; [|discriminate].
    destruct (armed t); [|discriminate]. injection Hexec as <-.
    apply (terms_update n c _ a rn
             (set_electionTimer (Some (Timer_fire t)) rn) Hw Ha);
      simpl; auto. apply (tw_node n c Hw a rn Ha).
  - destruct (nodes c !! a) as [rn|] eqn:Ha; [|discriminate].
    destruct (electionTimer rn) as [t|]; [|discriminate].
    destruct (fired t); [|discriminate].
    pose proof (tw_node n c Hw a rn Ha) as Hterm.
    assert (incr (currentTerm rn) = currentTerm rn + 1) as Hincr
      by (unfold incr, MaxInt in *; case_decide; lia).
    apply (terms_mono n (n + 1)) in Hw; [|lia].
    unfold startElection in Hexec. simpl in Hexec.
    destruct (state rn); simpl in Hexec; injection Hexec as <-.
    + eapply (terms_update (n + 1) c _ a rn _ Hw Ha);
        [reflexivity|simpl; lia|simpl; auto|simpl; auto|simpl].
      intros g t0 [Hold|Hin]%elem_of_app Ht0; [by left|right].
      unfold voteRequests in Hin.
      apply list_elem_of_fmap in Hin as (p & -> & _).
      simpl in Ht0. injection Ht0 as <-. lia.
    + eapply (terms_update (n + 1) c _ a rn _ Hw Ha);
        [reflexivity|simpl; lia|simpl; auto|simpl; auto|simpl].
      intros g t0 [Hold|Hin]%elem_of_app Ht0; [by left|right].
      unfold voteRequests in Hin.
      apply list_elem_of_fmap in Hin as (p & -> & _).
      simpl in Ht0. injection Ht0 as <-. lia.
    + eapply (terms_update (n + 1) c _ a rn _ Hw Ha);
        [reflexivity|simpl; lia|simpl; auto..].
  - destruct (nodes c !! a) as [rn|] eqn:Ha; [|discriminate].
    destruct (electionTimer rn) as [t|]; [|discriminate].
    destruct (voteReqChan rn) as [|args q] eqn:Hq; [discriminate|].
    pose proof (tw_node n c Hw a rn Ha) as Hterm.
    assert (0 <= rv_Term args <= n) as Hargs.
    { apply (tw_req n c Hw a rn args Ha). rewrite Hq.
      apply elem_of_cons. by left. }
    pose proof (handleRequestVote_fields (set_voteReqChan q rn) args r)
      as (_ & _ & Hchan).
    pose proof (handleRequestVote_term (set_voteReqChan q rn) args r)
      as (Ht & Hhb).
    destruct (handleRequestVote (set_voteReqChan q rn) args r) as [rn2 reply].
    simpl in *.
    assert (termsWithin n (set_node a rn2 c)) as Hw2.
    { apply (terms_update n c _ a rn rn2 Hw Ha); simpl; auto.
      - lia.
      - intros m. rewrite Hchan, Hq, elem_of_cons. auto.
      - intros m. rewrite Hhb. auto. }
    destruct (rp_VoteGranted reply); injection Hexec as <-; [|done].
    eapply (terms_same n (set_node a rn2 c)); [done|reflexivity|].
    simpl. intros g t0 [Hold|Hnew%list_elem_of_singleton]%elem_of_app Ht0;
      [by left|right].
    subst g. simpl in Ht0. injection Ht0 as <-. done.
  - destruct (nodes c !! a) as [rn|] eqn:Ha; [|discriminate].
    destruct (electionTimer rn) as [t|]; [|discriminate].
    destruct (heartbeatChan rn) as [|args q] eqn:Hq; [discriminate|].
    pose proof (tw_node n c Hw a rn Ha) as Hterm.
    assert (0 <= hb_Term args <= n) as Hargs.
    { apply (tw_hb n c Hw a rn args Ha). rewrite Hq.
      apply elem_of_cons. by left. }
    pose proof (handleHeartbeat_fields (set_heartbeatChan q rn) args r)
      as (_ & _ & Hchan & _).
    pose proof (handleHeartbeat_term (set_heartbeatChan q rn) args r)
      as (Ht & Hhb).
    injection Hexec as <-. simpl in *.
    apply (terms_update n c _ a rn
             (handleHeartbeat (set_heartbeatChan q rn) args r) Hw Ha);
      simpl; auto.
    + lia.
    + intros m. rewrite Hchan. auto.
    + intros m. rewrite Hhb, Hq, elem_of_cons. auto.
  - destruct (spawned c !! k) as [g|] eqn:Hk; [|discriminate].
    assert (forall t, termOf g = Some t -> 0 <= t <= n) as Hg.
    { intros t. apply (tw_go n c Hw g). by eapply list_elem_of_lookup_2. }
    assert (forall g' (t : Z), g' ∈ delete k (spawned c) ->
              termOf g' = Some t -> g' ∈ spawned c \/ 0 <= t <= n) as Hdel.
    { intros g' t Hin _. left. by eapply list_elem_of_delete_inv. }
    assert (forall g0 g' (t : Z),
              (forall t0, termOf g0 = Some t0 -> 0 <= t0 <= n) ->
              g' ∈ <[k := g0]> (spawned c) ->
              termOf g' = Some t -> g' ∈ spawned c \/ 0 <= t <= n) as Hres.
    { intros g0 g' t Hg0 [->|Hin]%elem_of_insert_inv Ht; auto. }
    destruct g as [p args|v args|a pc]; simpl in Hexec, Hg.
    + destruct (nodes c !! p) as [pn|] eqn:Hp; [|discriminate].
      destruct (decide _); [|discriminate]. injection Hexec as <-.
      apply (terms_update n c _ p pn
               (set_voteReqChan (voteReqChan pn ++ [args]) pn) Hw Hp);
        simpl; auto.
      * apply (tw_node n c Hw p pn Hp).
      * intros m [Hm|Hm%list_elem_of_singleton]%elem_of_app; [by left|].
        subst m. right. by apply Hg.
    + destruct (nodes c !! v) as [vn|]; [|discriminate].
      destruct (getPeer (nodes c) vn (rv_CandidateID args)) as [ca|];
        [|discriminate].
      destruct (nodes c !! ca) as [cn|] eqn:Hc; [|discriminate].
      pose proof (tw_node n c Hw ca cn Hc) as Hterm.
      unfold receiveVote in Hexec.
      destruct (decide (state cn <> Candidate)); injection Hexec as <-.
      * apply (terms_update n c _ ca cn cn Hw Hc); simpl; auto.
      * apply (terms_update n c _ ca cn (set_state Leader cn) Hw Hc);
          simpl; auto.
        intros g' t [Hin|Hnew%list_elem_of_singleton]%elem_of_app Ht; [auto|].
        subst g'. discriminate Ht.
    + destruct pc as [|term [|p rest]]; simpl in Hg.
      * destruct (nodes c !! a) as [rn|] eqn:Ha; [|discriminate].
        pose proof (tw_node n c Hw a rn Ha) as Hterm.
        unfold heartbeatTerm in Hexec.
        destruct (decide (state rn <> Leader)); injection Hexec as <-.
        -- by apply (terms_same n c (finish k c) Hw eq_refl).
        -- eapply (terms_same n c); [exact Hw | reflexivity | simpl].
           intros g' t. apply Hres. simpl. by intros t0 [= <-].
      * injection Hexec as <-.
        eapply (terms_same n c); [exact Hw | reflexivity | simpl].
        intros g' t. apply Hres. simpl. done.
      * destruct (nodes c !! a) as [rn|]; [|discriminate].
        destruct (nodes c !! p) as [pn|] eqn:Hp; [|discriminate].
        specialize (Hg term eq_refl).
        destruct (decide (id pn = id rn)).
        -- injection Hexec as <-.
           eapply (terms_same n c); [exact Hw | reflexivity | simpl].
           intros g' t. apply Hres. simpl. by intros t0 [= <-].
        -- destruct (decide _); [|discriminate]. injection Hexec as <-.
           apply (terms_update n c _ p pn
                    (set_heartbeatChan
                       (heartbeatChan pn ++
                          [{| hb_Term := term; hb_LeaderID := id rn |}]) pn)
                    Hw Hp); simpl; auto.
           ++ apply (tw_node n c Hw p pn Hp).
           ++ intros m [Hm|Hm%list_elem_of_singleton]%elem_of_app;
                [by left|].
              subst m. by right.
           ++ intros g' t. apply Hres. simpl. by intros t0 [= <-].
Qed.

Lemma mesh_terms (ids : list Z) : termsWithin 0 (mesh ids).
Proof.
  split.
  - intros a rn (i & _ & ->)%mesh_lookup. simpl. lia.
  - intros a rn m (i & _ & ->)%mesh_lookup Hin. simpl in Hin.
    by apply elem_of_nil in Hin.
  - intros a rn m (i & _ & ->)%mesh_lookup Hin. simpl in Hin.
    by apply elem_of_nil in Hin.
  - intros g t Hin. simpl in Hin. by apply elem_of_nil in Hin.
Qed.

Lemma run_terms (evs : list Event) :
  forall (n : Z) (c c' : Cluster),
  termsWithin n c -> n + timeouts evs <= MaxInt -> run evs c = Next c' ->
  termsWithin (n + timeouts evs) c'.
Proof.
  induction evs as [|ev evs IH]; intros n c c' Hw Hmax Hrun.
  - simpl in *. injection Hrun as <-. by rewrite Z.add_0_r.
  - change (ev :: evs) with ([ev] ++ evs) in Hmax |- *.
    rewrite timeouts_app in Hmax |- *.
    pose proof (timeouts_nonneg evs) as Hpos.
    simpl in Hrun. destruct (exec ev c) as [c1| |] eqn:Hexec; try discriminate.
    rewrite Z.add_assoc. apply (IH _ c1); [|lia|done].
    apply (terms_step n ev c c1 Hw); [lia|done].
Qed.

(** X16: terms count election timeouts.  In every cluster reached from
    the one that [main] wires, the term of a node lies between 0 and the
    number of election timeouts processed so far, as long as these are
    no more than the largest int. *)
Theorem term_bounded_by_timeouts (ids : list Z) (evs : list Event)
    (c : Cluster) (a : addr) (rn : RaftNode) :
  run evs (mesh ids) = Next c -> timeouts evs <= MaxInt ->
  nodes c !! a = Some rn ->
  0 <= currentTerm rn <= timeouts evs.
Proof.
  intros Hrun Hmax Ha.
  apply (tw_node (0 + timeouts evs) c
           (run_terms evs 0 (mesh ids) c (mesh_terms ids) Hmax Hrun) a rn Ha).
Qed.

Lemma term_bounded_by_timeouts_witness :
  0 <= currentTerm (node_at (after run_first_election main_cluster) 0)
    <= timeouts run_first_election.
Proof.
  apply (term_bounded_by_timeouts [1; 2; 3] run_first_election
           (after run_first_election main_cluster) 0).
  - vm_compute. reflexivity.
  - vm_compute. discriminate.
  - vm_compute. reflexivity.
Defined.

Lemma handle_term_mono (h : Handler) (rn : RaftNode) :
  currentTerm rn < MaxInt -> currentTerm rn <= currentTerm (handle h rn).
Proof.
  intros Hlt. destruct h as [|args r| |args r]; simpl.
  - unfold startElection. destruct (state rn); simpl; try lia;
      unfold incr; case_decide; lia.
  - rewrite (proj1 (handleRequestVote_term rn args r)). lia.
  - unfold receiveVote. case_decide; simpl; lia.
  - rewrite (proj1 (handleHeartbeat_term rn args r)). lia.
Qed.

Lemma exec_term_mono (ev : Event) (c c' : Cluster) (a : addr)
    (rn : RaftNode) :
  exec ev c = Next c' -> nodes c !! a = Some rn -> currentTerm rn < MaxInt ->
  exists rn', nodes c' !! a = Some rn' /\ currentTerm rn <= currentTerm rn'.
Proof.
  intros [->|(b & nb & nb' & Hb & -> & _ & Hcore & _)]%exec_nodes Ha Hlt.
  - exists rn. split; [done|lia].
  - destruct (decide (b = a)) as [->|Hne].
    + exists nb'. split.
      * apply list_lookup_insert_eq. by eapply lookup_lt_Some.
      * pose proof (eq_trans (eq_sym Hb) Ha) as [= ->].
        destruct Hcore as [Hc|[h Hc]]; unfold core in Hc;
          injection Hc as _ Ht _ _; rewrite Ht; [lia|].
        by apply handle_term_mono.
    + exists rn. split; [|lia]. by rewrite list_lookup_insert_ne.
Qed.

Lemma run_term_mono (evs : list Event) :
  forall (n : Z) (c c' : Cluster) (a : addr) (rn : RaftNode),
  termsWithin n c -> n + timeouts evs < MaxInt -> run evs c = Next c' ->
  nodes c !! a = Some rn ->
  exists rn', nodes c' !! a = Some rn' /\ currentTerm rn <= currentTerm rn'.
Proof.
  induction evs as [|ev evs IH]; intros n c c' a rn Hw Hmax Hrun Ha.
  - simpl in Hrun. injection Hrun as <-. exists rn. split; [done|lia].
  - change (ev :: evs) with ([ev] ++ evs) in Hmax.
    rewrite timeouts_app in Hmax.
    pose proof (timeouts_nonneg evs) as Hpos.
    pose proof (timeouts_nonneg [ev]) as Hpos1.
    simpl in Hrun. destruct (exec ev c) as [c1| |] eqn:Hexec; try discriminate.
    pose proof (tw_node n c Hw a rn Ha) as Hterm.
    destruct (exec_term_mono ev c c1 a rn Hexec Ha) as (rn1 & Ha1 & Hle1);
      [lia|].
    destruct (IH (n + timeouts [ev]) c1 c' a rn1) as (rn' & Ha' & Hle');
      [apply (terms_step n ev c c1 Hw); [lia|done] | lia | done | done |].
    exists rn'. split; [done|lia].
Qed.

(** X17: along a run from the cluster that [main] wires, the term of a
    node never decreases, as long as the run processes fewer election
    timeouts than the largest int. *)
Theorem terms_never_decrease (ids : list Z) (evs evs' : list Event)
    (c c' : Cluster) (a : addr) (rn : RaftNode) :
  run evs (mesh ids) = Next c -> run evs' c = Next c' ->
  timeouts (evs ++ evs') < MaxInt ->
  nodes c !! a = Some rn ->
  exists rn', nodes c' !! a = Some rn' /\ currentTerm rn <= currentTerm rn'.
Proof.
  intros Hrun Hrun' Hmax Ha. rewrite timeouts_app in Hmax.
  pose proof (timeouts_nonneg evs') as Hpos.
  apply (run_term_mono evs' (0 + timeouts evs) c c' a rn); try done.
  apply (run_terms evs 0 (mesh ids) c (mesh_terms ids)); [lia|done].
Qed.

Lemma terms_never_decrease_witness :
  exists rn',
    nodes (after (run_timer_expired ++ [EvTimeout 0]) main_cluster) !! 0%nat
      = Some rn' /\
    currentTerm (node_at (after run_timer_expired main_cluster) 0)
      <= currentTerm rn'.
Proof.
  apply (terms_never_decrease [1; 2; 3] run_timer_expired [EvTimeout 0]
           (after run_timer_expired main_cluster)
           (after (run_timer_expired ++ [EvTimeout 0]) main_cluster) 0).
  - vm_compute. reflexivity.
  - vm_compute. reflexivity.
  - vm_compute. reflexivity.
  - vm_compute. reflexivity.
Defined.

(** ** Votes along a run *)

Lemma votes_update (ids : list Z) (c c' : Cluster) (a : addr)
    (rn rn' : RaftNode) :
  votesIn ids c -> nodes c !! a = Some rn ->
  nodes c' = <[a := rn']> (nodes c) ->
  votedFor rn' = votedFor rn \/ votedFor rn' = -1 \/ votedFor rn' ∈ ids ->
  votesIn ids c'.
Proof.
  intros Hv Ha Hn Hvote b nb. rewrite Hn.
  destruct (decide (a = b)) as [<-|Hne].
  - rewrite list_lookup_insert_eq by (by eapply lookup_lt_Some).
    intros [= <-]. destruct Hvote as [-> | [-> | Hin] ]; auto. by apply (Hv a).
  - rewrite list_lookup_insert_ne by done. apply Hv.
Qed.

Lemma handleRequestVote_vote (rn : RaftNode) (args : RequestVoteArgs)
    (r : Z) :
  votedFor (handleRequestVote rn args r).1 = votedFor rn \/
  votedFor (handleRequestVote rn args r).1 = -1 \/
  votedFor (handleRequestVote rn args r).1 = rv_CandidateID args.
Proof.
  unfold handleRequestVote. repeat case_decide; simpl;
    rewrite ?(proj1 (proj2 (proj2 (resetIfSet_fields _ _)))); simpl; auto.
Qed.

Lemma votes_step (ids : list Z) (ev : Event) (c c' : Cluster) :
  wired ids c -> votesIn ids c -> exec ev c = Next c' -> votesIn ids c'.
Proof.
  intros Hw Hv Hexec. pose proof (wired_ids ids c Hw) as Hids.
  destruct ev as [a r|a|a|a r|a r|k]; simpl in Hexec.
  - destruct (nodes c !! a) as [rn|] eqn:Ha; [|discriminate].
    destruct (electionTimer rn); [discriminate|]. injection Hexec as <-.
    apply (votes_update ids c _ a rn (resetElectionTimer r rn) Hv Ha);
      simpl; auto.
  - destruct (nodes c !! a) as [rn|] eqn:Ha; [|discriminate].
    destruct (electionTimer rn) as [t|]; [|discriminate].
    destruct (armed t); [|discriminate]. injection Hexec as <-.
    apply (votes_update ids c _ a rn
             (set_electionTimer (Some (Timer_fire t)) rn) Hv Ha);
      simpl; auto.
  - destruct (nodes c !! a) as [rn|] eqn:Ha; [|discriminate].
    destruct (electionTimer rn) as [t|]; [|discriminate].
    destruct (fired t); [|discriminate].
    assert (id rn ∈ ids) as Hin.
    { apply (list_elem_of_lookup_2 ids a).
      apply (wired_node ids c a (id rn) Hids). eauto. }
    unfold startElection in Hexec. simpl in Hexec.
    destruct (state rn); simpl in Hexec; injection Hexec as <-;
      (eapply (votes_update ids c _ a rn _ Hv Ha); [reflexivity|simpl; auto]).
  - destruct (nodes c !! a) as [rn|] eqn:Ha; [|discriminate].
    destruct (electionTimer rn) as [t|]; [|discriminate].
    destruct (voteReqChan rn) as [|args q] eqn:Hq; [discriminate|].
    assert (rv_CandidateID args ∈ ids) as Hin.
    { apply (wired_chan ids c Hw a rn args Ha). rewrite Hq.
      apply elem_of_cons. by left. }
    pose proof (handleRequestVote_vote (set_voteReqChan q rn) args r) as Hvote.
    destruct (handleRequestVote (set_voteReqChan q rn) args r) as [rn2 reply].
    simpl in *.
    assert (votesIn ids (set_node a rn2 c)) as Hv2.
    { apply (votes_update ids c _ a rn rn2 Hv Ha); [done|].
      destruct Hvote as [-> | [-> | ->] ]; auto. }
    by destruct (rp_VoteGranted reply); injection Hexec as <-.
  - destruct (nodes c !! a) as [rn|] eqn:Ha; [|discriminate].
    destruct (electionTimer rn) as [t|]; [|discriminate].
    destruct (heartbeatChan rn) as [|args q] eqn:Hq; [discriminate|].
    pose proof (handleHeartbeat_fields (set_heartbeatChan q rn) args r)
      as (_ & _ & _ & Hvote & _).
    injection Hexec as <-.
    apply (votes_update ids c _ a rn
             (handleHeartbeat (set_heartbeatChan q rn) args r) Hv Ha);
      simpl in *; auto.
  - destruct (spawned c !! k) as [g|] eqn:Hk; [|discriminate].
    destruct g as [p args|v args|a pc]; simpl in Hexec.
    + destruct (nodes c !! p) as [pn|] eqn:Hp; [|discriminate].
      destruct (decide _); [|discriminate]. injection Hexec as <-.
      apply (votes_update ids c _ p pn
               (set_voteReqChan (voteReqChan pn ++ [args]) pn) Hv Hp);
        simpl; auto.
    + destruct (nodes c !! v) as [vn|]; [|discriminate].
      destruct (getPeer (nodes c) vn (rv_CandidateID args)) as [ca|];
        [|discriminate].
      destruct (nodes c !! ca) as [cn|] eqn:Hc; [|discriminate].
      unfold receiveVote in Hexec.
      destruct (decide (state cn <> Candidate)); injection Hexec as <-.
      * apply (votes_update ids c _ ca cn cn Hv Hc); simpl; auto.
      * apply (votes_update ids c _ ca cn (set_state Leader cn) Hv Hc);
          simpl; auto.
    + destruct pc as [|term [|p rest]].
      * destruct (nodes c !! a) as [rn|]; [|discriminate].
        by destruct (heartbeatTerm rn); injection Hexec as <-.
      * by injection Hexec as <-.
      * destruct (nodes c !! a) as [rn|]; [|discriminate].
        destruct (nodes c !! p) as [pn|] eqn:Hp; [|discriminate].
        destruct (decide (id pn = id rn)); [by injection Hexec as <-|].
        destruct (decide _); [|discriminate]. injection Hexec as <-.
        apply (votes_update ids c _ p pn
                 (set_heartbeatChan
                    (heartbeatChan pn ++
                       [{| hb_Term := term; hb_LeaderID := id rn |}]) pn)
                 Hv Hp); simpl; auto.
Qed.

Lemma run_votes (ids : list Z) (evs : list Event) :
  forall c c', wired ids c -> votesIn ids c -> run evs c = Next c' ->
  votesIn ids c'.
Proof.
  induction evs as [|ev evs IH]; intros c c' Hw Hv Hrun; simpl in Hrun.
  - by injection Hrun as <-.
  - pose proof (wired_step ids ev c Hw) as Hw1.
    destruct (exec ev c) as [c1| |] eqn:Hexec; try discriminate.
    apply (IH c1 c' Hw1); [|done]. by apply (votes_step ids ev c c1).
Qed.

(** X18: in every cluster reached from the one that [main] wires, a
    node has voted for nobody or for the id of a node of the cluster. *)
Theorem votes_stay_in_cluster (ids : list Z) (evs : list Event) (c : Cluster)
    (a : addr) (rn : RaftNode) :
  run evs (mesh ids) = Next c -> nodes c !! a = Some rn ->
  votedFor rn = -1 \/
  exists b nb, nodes c !! b = Some nb /\ id nb = votedFor rn.
Proof.
  intros Hrun Ha.
  pose proof (run_wired ids evs (mesh ids) (mesh_wired ids)) as Hw.
  rewrite Hrun in Hw.
  assert (votesIn ids (mesh ids)) as Hv0.
  { intros b nb (i & _ & ->)%mesh_lookup. by left. }
  destruct (run_votes ids evs (mesh ids) c (mesh_wired ids) Hv0 Hrun a rn Ha)
    as [Hnone|Hin]; [by left|right].
  apply list_elem_of_lookup in Hin as [b Hb].
  apply (wired_node ids c b _ (wired_ids ids c Hw)) in Hb as (nb & Hnb & Hid).
  eauto.
Qed.

Lemma votes_stay_in_cluster_witness :
  votedFor (node_at (after run_first_election main_cluster) 2) = -1 \/
  exists b nb,
    nodes (after run_first_election main_cluster) !! b = Some nb /\
    id nb = votedFor (node_at (after run_first_election main_cluster) 2).
Proof.
  apply (votes_stay_in_cluster [1; 2; 3] run_first_election
           (after run_first_election main_cluster) 2).
  - vm_compute. reflexivity.
  - vm_compute. reflexivity.
Defined.

(** ** The heartbeat loop of a Leader *)

Lemma elem_of_delete_other {A : Type} (l : list A) (k : nat) (x y : A) :
  y ∈ l -> l !! k = Some x -> y = x \/ y ∈ delete k l.
Proof.
  intros [i Hi]%list_elem_of_lookup Hk.
  destruct (decide (i = k)) as [->|Hne]; [left; congruence|right].
  destruct (decide (i < k)%nat) as [Hlt|Hge].
  - apply (list_elem_of_lookup_2 _ i). by rewrite list_lookup_delete_lt.
  - destruct i as [|i]; [lia|].
    apply (list_elem_of_lookup_2 _ i).
    rewrite list_lookup_delete_ge by lia. done.
Qed.

Lemma elem_of_insert_other {A : Type} (l : list A) (k : nat) (x x' y : A) :
  y ∈ l -> l !! k = Some x -> y = x \/ y ∈ <[k := x']> l.
Proof.
  intros [i Hi]%list_elem_of_lookup Hk.
  destruct (decide (i = k)) as [->|Hne]; [left; congruence|right].
  apply (list_elem_of_lookup_2 _ i). by rewrite list_lookup_insert_ne.
Qed.

Lemma broadcast_update (c c' : Cluster) (a : addr) (rn rn' : RaftNode) :
  leadersBroadcast c -> nodes c !! a = Some rn ->
  nodes c' = <[a := rn']> (nodes c) ->
  (state rn' = Leader ->
   state rn = Leader \/ exists pc, GoSendHeartbeats a pc ∈ spawned c') ->
  (forall b pc, GoSendHeartbeats b pc ∈ spawned c ->
     exists pc', GoSendHeartbeats b pc' ∈ spawned c') ->
  leadersBroadcast c'.
Proof.
  intros Hl Ha Hn Hstate Hsp b nb. rewrite Hn.
  destruct (decide (a = b)) as [<-|Hne].
  - rewrite list_lookup_insert_eq by (by eapply lookup_lt_Some).
    intros [= <-] [Hs|Hnew]%Hstate; [|done].
    destruct (Hl a rn Ha Hs) as [pc Hpc]. by apply (Hsp a pc).
  - rewrite list_lookup_insert_ne by done. intros Hb Hs.
    destruct (Hl b nb Hb Hs) as [pc Hpc]. by apply (Hsp b pc).
Qed.

Lemma handleRequestVote_state (rn : RaftNode) (args : RequestVoteArgs)
    (r : Z) :
  state (handleRequestVote rn args r).1 = Leader -> state rn = Leader.
Proof.
  unfold handleRequestVote. repeat case_decide; simpl;
    rewrite ?(proj1 (proj2 (proj2 (proj2 (resetIfSet_fields _ _)))));
    simpl; auto; discriminate.
Qed.

Lemma broadcast_step (ev : Event) (c c' : Cluster) :
  leadersBroadcast c -> exec ev c = Next c' -> leadersBroadcast c'.
Proof.
  intros Hl Hexec.
  assert (forall gs b pc, GoSendHeartbeats b pc ∈ spawned c ->
            exists pc', GoSendHeartbeats b pc' ∈ spawned c ++ gs) as Happ.
  { intros gs b pc Hin. exists pc. apply elem_of_app. by left. }
  assert (forall b pc, GoSendHeartbeats b pc ∈ spawned c ->
            exists pc', GoSendHeartbeats b pc' ∈ spawned c) as Hsame by eauto.
  destruct ev as [a r|a|a|a r|a r|k]; simpl in Hexec.
  - destruct (nodes c !! a) as [rn|] eqn:Ha; [|discriminate].
    destruct (electionTimer rn); [discriminate|]. injection Hexec as <-.
    apply (broadcast_update c _ a rn (resetElectionTimer r rn) Hl Ha);
      simpl; auto.
  - destruct (nodes c !! a) as [rn|] eqn:Ha; [|discriminate].
    destruct (electionTimer rn) as [t|]; [|discriminate].
    destruct (armed t); [|discriminate]. injection Hexec as <-.
    apply (broadcast_update c _ a rn
             (set_electionTimer (Some (Timer_fire t)) rn) Hl Ha);
      simpl; auto.
  - destruct (nodes c !! a) as [rn|] eqn:Ha; [|discriminate].
    destruct (electionTimer rn) as [t|]; [|discriminate].
    destruct (fired t); [|discriminate].
    unfold startElection in Hexec. simpl in Hexec.
    destruct (state rn) eqn:Hs; simpl in Hexec; injection Hexec as <-;
      (eapply (broadcast_update c _ a rn _ Hl Ha);
       [reflexivity|simpl; auto; discriminate|simpl; auto; apply Happ]).
  - destruct (nodes c !! a) as [rn|] eqn:Ha; [|discriminate].
    destruct (electionTimer rn) as [t|]; [|discriminate].
    destruct (voteReqChan rn) as [|args q] eqn:Hq; [discriminate|].
    pose proof (handleRequestVote_state (set_voteReqChan q rn) args r) as Hs.
    destruct (handleRequestVote (set_voteReqChan q rn) args r) as [rn2 reply].
    simpl in *.
    destruct (rp_VoteGranted reply); injection Hexec as <-;
      apply (broadcast_update c _ a rn rn2 Hl Ha); simpl; auto; apply Happ.
  - destruct (nodes c !! a) as [rn|] eqn:Ha; [|discriminate].
    destruct (electionTimer rn) as [t|]; [|discriminate].
    destruct (heartbeatChan rn) as [|args q] eqn:Hq; [discriminate|].
    pose proof (handleHeartbeat_fields (set_heartbeatChan q rn) args r)
      as (_ & _ & _ & _ & _ & Hs).
    injection Hexec as <-.
    apply (broadcast_update c _ a rn
             (handleHeartbeat (set_heartbeatChan q rn) args r) Hl Ha);
      simpl in *; auto.
    intros Hlead. left. destruct Hs as [Hs|[Hs _]]; congruence.
  - destruct (spawned c !! k) as [g|] eqn:Hk; [|discriminate].
    assert (forall g' b pc,
              GoSendHeartbeats b pc ∈ spawned c ->
              GoSendHeartbeats b pc = g \/
              GoSendHeartbeats b pc ∈ <[k := g']> (spawned c)) as Hres.
    { intros g' b pc Hin. by apply elem_of_insert_other. }
    assert (forall b pc,
              GoSendHeartbeats b pc ∈ spawned c ->
              GoSendHeartbeats b pc = g \/
              GoSendHeartbeats b pc ∈ delete k (spawned c)) as Hdel.
    { intros b pc Hin. by apply elem_of_delete_other. }
    assert (forall g', g' ∈ <[k := g']> (spawned c)) as Hnew.
    { intros g'. apply list_elem_of_insert. by eapply lookup_lt_Some. }
    destruct g as [p args|v args|a pc]; simpl in Hexec.
    + destruct (nodes c !! p) as [pn|] eqn:Hp; [|discriminate].
      destruct (decide _); [|discriminate]. injection Hexec as <-.
      apply (broadcast_update c _ p pn
               (set_voteReqChan (voteReqChan pn ++ [args]) pn) Hl Hp);
        simpl; auto.
      intros b pc [Heq|Hin]%Hdel; [discriminate|eauto].
    + destruct (nodes c !! v) as [vn|]; [|discriminate].
      destruct (getPeer (nodes c) vn (rv_CandidateID args)) as [ca|];
        [|discriminate].
      destruct (nodes c !! ca) as [cn|] eqn:Hc; [|discriminate].
      unfold receiveVote in Hexec.
      destruct (decide (state cn <> Candidate)); injection Hexec as <-.
      * apply (broadcast_update c _ ca cn cn Hl Hc); simpl; auto.
        intros b pc [Heq|Hin]%Hdel; [discriminate|eauto].
      * apply (broadcast_update c _ ca cn (set_state Leader cn) Hl Hc);
          simpl; auto.
        -- intros _. right. exists HBCheck. apply elem_of_app. right.
           by apply list_elem_of_singleton.
        -- intros b pc [Heq|Hin]%Hdel; [discriminate|].
           exists pc. apply elem_of_app. by left.
    + assert (forall pc0 b pc1, GoSendHeartbeats b pc1 ∈ spawned c ->
                exists pc',
                  GoSendHeartbeats b pc'
                    ∈ <[k := GoSendHeartbeats a pc0]> (spawned c)) as Hkeep.
      { intros pc0 b pc1 [Heq|Hin]%(Hres (GoSendHeartbeats a pc0)); [|eauto].
        injection Heq as -> _. eauto. }
      destruct pc as [|term [|p rest]].
      * destruct (nodes c !! a) as [rn|] eqn:Ha; [|discriminate].
        unfold heartbeatTerm in Hexec.
        destruct (decide (state rn <> Leader)) as [Hs|Hs];
          injection Hexec as <-.
        -- intros b nb Hb Hlead. simpl in Hb |- *.
           destruct (Hl b nb Hb Hlead) as [pc [Heq|Hin]%Hdel]; [|eauto].
           injection Heq as -> _.
           pose proof (eq_trans (eq_sym Hb) Ha) as [= ->]. done.
        -- intros b nb Hb Hlead. simpl in Hb |- *.
           destruct (Hl b nb Hb Hlead) as [pc Hin]. by eapply Hkeep.
      * injection Hexec as <-.
        intros b nb Hb Hlead. simpl in Hb |- *.
        destruct (Hl b nb Hb Hlead) as [pc Hin]. by eapply Hkeep.
      * destruct (nodes c !! a) as [rn|]; [|discriminate].
        destruct (nodes c !! p) as [pn|] eqn:Hp; [|discriminate].
        destruct (decide (id pn = id rn)).
        -- injection Hexec as <-.
           intros b nb Hb Hlead. simpl in Hb |- *.
           destruct (Hl b nb Hb Hlead) as [pc Hin]. by eapply Hkeep.
        -- destruct (decide _); [|discriminate]. injection Hexec as <-.
           apply (broadcast_update c _ p pn
                    (set_heartbeatChan
                       (heartbeatChan pn ++
                          [{| hb_Term := term; hb_LeaderID := id rn |}]) pn)
                    Hl Hp); simpl; auto.
           intros b pc Hin. by eapply Hkeep.
Qed.

Lemma run_broadcast (evs : list Event) :
  forall c c', leadersBroadcast c -> run evs c = Next c' ->
  leadersBroadcast c'.
Proof.
  induction evs as [|ev evs IH]; intros c c' Hl Hrun; simpl in Hrun.
  - by injection Hrun as <-.
  - destruct (exec ev c) as [c1| |] eqn:Hexec; try discriminate.
    apply (IH c1 c'); [|done]. by apply (broadcast_step ev c c1).
Qed.

(** X19: in every cluster reached from the one that [main] wires, a
    Leader has a [sendHeartbeats] goroutine that has not returned. *)
Theorem leader_has_broadcaster (ids : list Z) (evs : list Event)
    (c : Cluster) (a : addr) (rn : RaftNode) :
  run evs (mesh ids) = Next c -> nodes c !! a = Some rn ->
  state rn = Leader ->
  exists pc, GoSendHeartbeats a pc ∈ spawned c.
Proof.
  intros Hrun Ha Hs.
  apply (run_broadcast evs (mesh ids) c) with (rn := rn); try done.
  intros b nb (i & _ & ->)%mesh_lookup. discriminate.
Qed.

Lemma leader_has_broadcaster_witness :
  exists pc,
    GoSendHeartbeats 0 pc ∈ spawned (after run_first_election main_cluster).
Proof.
  apply (leader_has_broadcaster [1; 2; 3] run_first_election
           (after run_first_election main_cluster) 0
           (node_at (after run_first_election main_cluster) 0)).
  - vm_compute. reflexivity.
  - vm_compute. reflexivity.
  - vm_compute. reflexivity.
Defined.
